(** * Download-state model of the bit-torrent client (models.py)

    A shallow embedding of [models.py]: peers, file entries and the file
    tree, block requests and their futures, per-piece state and the
    [DownloadInfo] orchestrator, followed by the properties proved about
    them.

    Conventions of the embedding.
    - Python [int] is [Z]; [//] is [Z.div] (both round towards minus
      infinity) and [%] is [Z.modulo].
    - [ceil(a / b)] is computed by Python through a float division.  It is
      modelled by the exact ceiling [ceil_div]; the two agree as long as
      the operands stay below 2^53, which covers every torrent size.
    - Objects that are shared and compared by identity live in a store:
      piece objects in a list indexed by address, futures likewise.  A
      method that mutates [self] in place takes the store and returns the
      new one.  A raised exception is an [outcome] that still carries the
      state reached when it was raised, since in-place mutations done
      before a [raise] stay visible to the caller.
    - A Python reference always denotes a live object, so an address that
      is absent from a store cannot occur; a write through one is skipped
      and a read through one is treated as an index out of range. *)

From stdpp Require Import gmap strings list fin_maps sorting.

Set Warnings "-register-all".

(** ** Python runtime helpers *)

Inductive exn :=
| ValueError
| AssertionError
| ZeroDivisionError
| TypeError
| AttributeError
| IndexError
| InvalidStateError.

Inductive outcome (S : Type) : Type :=
| Returned (s : S)
| Raised (e : exn) (s : S).
Arguments Returned {S} s.
Arguments Raised {S} e s.

(** [ceil(a / b)] for [b <> 0]. *)
Definition ceil_div (a b : Z) : Z := (- ((- a) / b))%Z.

(** [range(b, e)]. *)
Definition py_range (b e : Z) : list Z :=
  map (fun k : nat => (b + Z.of_nat k)%Z) (seq 0 (Z.to_nat (e - b))).

(** [l[i]] on a list of length [n]: negative indices count from the end,
    anything outside [-n, n) is an [IndexError]. *)
Definition py_index (n : nat) (i : Z) : option nat :=
  if (0 <=? i)%Z then
    if (i <? Z.of_nat n)%Z then Some (Z.to_nat i) else None
  else
    if (- Z.of_nat n <=? i)%Z then Some (Z.to_nat (Z.of_nat n + i)) else None.

(** A slice bound [i] of [l[b:e]] on a list of length [n]: a negative bound
    counts from the end, and the result is clamped to [0, n]. *)
Definition slice_bound (n : nat) (i : Z) : nat :=
  if (i <? 0)%Z then Z.to_nat (Z.max (i + Z.of_nat n) 0)
  else Z.to_nat (Z.min i (Z.of_nat n)).

(** [l[b:e]]. *)
Definition py_slice {A} (l : list A) (b e : Z) : list A :=
  let b' := slice_bound (length l) b in
  let e' := slice_bound (length l) e in
  take (e' - b') (drop b' l).

(** [arr[b:e] = v] on a bitarray: every bit of the slice becomes [v]. *)
Definition slice_assign (arr : list bool) (b e : Z) (v : bool) : list bool :=
  let b' := slice_bound (length arr) b in
  let e' := slice_bound (length arr) e in
  imap (fun i x => if bool_decide (b' <= i < e') then v else x) arr.

(** [bitarray.all()]. *)
Definition bits_all (arr : list bool) : bool := forallb id arr.

(** A [dict] keeps its keys in insertion order; assigning to a key that is
    present keeps the key's position. *)
Section dict.
Context {V : Type}.

Fixpoint dict_get (d : list (string * V)) (k : string) : option V :=
  match d with
  | [] => None
  | (k', v) :: d' => if bool_decide (k' = k) then Some v else dict_get d' k
  end.

Fixpoint dict_set (d : list (string * V)) (k : string) (v : V)
  : list (string * V) :=
  match d with
  | [] => [(k, v)]
  | (k', v') :: d' =>
      if bool_decide (k' = k) then (k', v) :: d'
      else (k', v') :: dict_set d' k v
  end.
End dict.

(** ** Peer *)

Module Peer.
Record t := {
  _host : string;
  _port : Z;
  peer_id : option (list Byte.byte)
}.

Definition host (self : t) : string := _host self.
Definition port (self : t) : Z := _port self.

Definition __eq__ (self other : t) : bool :=
  bool_decide (_host self = _host other)
  && bool_decide (_port self = _port other).
End Peer.

(** A [set] of peers: no two members are [Peer.__eq__]; [add] keeps the
    member already present. *)
Definition peer_set_add (s : list Peer.t) (p : Peer.t) : list Peer.t :=
  if existsb (fun q => Peer.__eq__ q p) s then s else s ++ [p].

(** ** FileInfo *)

Module FileInfo.
Record t := {
  _length : Z;
  _path : list string;
  _md5sum : option string;
  offset : option Z;
  selected : bool
}.

Definition __init__ (length : Z) (path : list string)
    (md5sum : option string) : t :=
  {| _length := length; _path := path; _md5sum := md5sum;
     offset := None; selected := true |}.

Definition set_offset (o : Z) (self : t) : t :=
  {| _length := _length self; _path := _path self;
     _md5sum := _md5sum self; offset := Some o;
     selected := selected self |}.

Definition set_selected (v : bool) (self : t) : t :=
  {| _length := _length self; _path := _path self;
     _md5sum := _md5sum self; offset := offset self;
     selected := v |}.
End FileInfo.

(** ** BlockRequest and BlockRequestFuture *)

Module BlockRequest.
Record t := {
  piece_index : Z;
  block_begin : Z;
  block_length : Z
}.
End BlockRequest.

(** State of an [asyncio.Future]. *)
Inductive future_state :=
| PENDING
| CANCELLED
| FINISHED (result : Peer.t).

Module BlockRequestFuture.
(** The attributes of a future object.  The object itself is denoted by
    its address in the store of futures. *)
Record t := {
  request : BlockRequest.t;
  _state : future_state;
  prev_performers : list Peer.t;
  performer : option Peer.t
}.

Definition __init__ (piece_index block_begin block_length : Z) : t :=
  {| request := {| BlockRequest.piece_index := piece_index;
                   BlockRequest.block_begin := block_begin;
                   BlockRequest.block_length := block_length |};
     _state := PENDING;
     prev_performers := [];
     performer := None |}.

Definition block_begin (self : t) : Z :=
  BlockRequest.block_begin (request self).
Definition block_length (self : t) : Z :=
  BlockRequest.block_length (request self).

(** [asyncio.Future.set_result]: only a pending future accepts a result. *)
Definition set_result (self : t) (result : Peer.t) : exn + t :=
  match _state self with
  | PENDING =>
      inr {| request := request self; _state := FINISHED result;
             prev_performers := prev_performers self;
             performer := performer self |}
  | _ => inl InvalidStateError
  end.
End BlockRequestFuture.

(** A Python value that may be handed to [__eq__]: a plain [BlockRequest],
    a [BlockRequestFuture] (by reference), or an object of another class. *)
Inductive pyobj :=
| ObjBlockRequest (r : BlockRequest.t)
| ObjBlockRequestFuture (a : nat)
| ObjOther.

Section equality_and_hash.
(** The built-in [hash] of a 3-tuple of integers and the identity hash
    of an object: interpreter functions, kept abstract. *)
Variable tuple_hash : Z * Z * Z -> Z.
Variable id_hash : nat -> Z.



(** [BlockRequestFuture.__eq__ = asyncio.Future.__eq__] and
    [BlockRequestFuture.__hash__ = asyncio.Future.__hash__]: the class
    body rebinds both to the ones of [asyncio.Future], which are those
    of [object], that is identity.  [self] is the address of the
    future; the store is an argument only to make plain that the
    attributes are not consulted. *)
Definition BlockRequestFuture___eq__
    (futures : list BlockRequestFuture.t) (self : nat) (other : pyobj)
  : bool :=
  match other with
  | ObjBlockRequestFuture o => bool_decide (self = o)
  | _ => false
  end.

End equality_and_hash.


(** [s.remove(x)] on a [set] of futures. *)
Definition future_set_remove (futures : list BlockRequestFuture.t)
    (s : list nat) (x : nat) : list nat :=
  filter (fun y =>
    BlockRequestFuture___eq__ futures y (ObjBlockRequestFuture x) = false) s.

(** ** PieceInfo *)

(** [DownloadInfo.MARKED_BLOCK_SIZE]. *)
Definition MARKED_BLOCK_SIZE : Z := 2 ^ 10.

Module PieceInfo.
Record t := {
  _piece_hash : list Byte.byte;
  _length : Z;
  selected : bool;
  owners : list Peer.t;
  validating : bool;
  _downloaded : bool;
  _sources : option (list Peer.t);
  _block_downloaded : option (list bool);
  _blocks_expected : option (list nat)
}.

Definition reset_content (self : t) : t :=
  {| _piece_hash := _piece_hash self; _length := _length self;
     selected := selected self; owners := owners self;
     validating := validating self;
     _downloaded := false;
     _sources := Some [];
     _block_downloaded := None;
     _blocks_expected := Some [] |}.

Definition __init__ (piece_hash : list Byte.byte) (length : Z) : t :=
  reset_content
    {| _piece_hash := piece_hash; _length := length;
       selected := true; owners := [];
       validating := false;
       _downloaded := false; _sources := None;
       _block_downloaded := None; _blocks_expected := None |}.

Definition reset_run_state (self : t) : t :=
  {| _piece_hash := _piece_hash self; _length := _length self;
     selected := selected self;
     owners := [];
     validating := false;
     _downloaded := _downloaded self;
     _sources := _sources self;
     _block_downloaded := _block_downloaded self;
     _blocks_expected := Some [] |}.

Definition set_selected (v : bool) (self : t) : t :=
  {| _piece_hash := _piece_hash self; _length := _length self;
     selected := v; owners := owners self;
     validating := validating self;
     _downloaded := _downloaded self; _sources := _sources self;
     _block_downloaded := _block_downloaded self;
     _blocks_expected := _blocks_expected self |}.

(** The state of [self] while [mark_downloaded_blocks] runs: the three
    attributes the method assigns or mutates. *)
Definition with_blocks (self : t) (sources : option (list Peer.t))
    (arr : option (list bool)) (expected : option (list nat)) : t :=
  {| _piece_hash := _piece_hash self; _length := _length self;
     selected := selected self; owners := owners self;
     validating := validating self;
     _downloaded := _downloaded self; _sources := sources;
     _block_downloaded := arr;
     _blocks_expected := expected |}.

(** The bit range a pending request covers, as queried by the scan. *)
Definition query_begin (fut : BlockRequestFuture.t) : Z :=
  (BlockRequestFuture.block_begin fut / MARKED_BLOCK_SIZE)%Z.
Definition query_end (fut : BlockRequestFuture.t) : Z :=
  ceil_div (BlockRequestFuture.block_begin fut
            + BlockRequestFuture.block_length fut) MARKED_BLOCK_SIZE.

(** The first loop of [mark_downloaded_blocks]: every expected future
    whose bits are all set is appended to [downloaded_blocks] and then
    resolved with [source]. *)
Fixpoint scan_expected (arr : list bool) (source : Peer.t)
    (expected : list nat) (futures : list BlockRequestFuture.t)
    (downloaded_blocks : list nat)
  : outcome (list BlockRequestFuture.t * list nat) :=
  match expected with
  | [] => Returned (futures, downloaded_blocks)
  | r :: rest =>
      match futures !! r with
      | None => scan_expected arr source rest futures downloaded_blocks
      | Some fut =>
          if bits_all (py_slice arr (query_begin fut) (query_end fut)) then
            let downloaded_blocks' := downloaded_blocks ++ [r] in
            match BlockRequestFuture.set_result fut source with
            | inl e => Raised e (futures, downloaded_blocks')
            | inr fut' =>
                scan_expected arr source rest (<[r := fut']> futures)
                  downloaded_blocks'
            end
          else scan_expected arr source rest futures downloaded_blocks
      end
  end.

(** [mark_begin] and [mark_end] of [mark_downloaded_blocks]. *)
Definition mark_begin (request : BlockRequest.t) : Z :=
  ceil_div (BlockRequest.block_begin request) MARKED_BLOCK_SIZE.
Definition mark_end (self : t) (arr : list bool)
    (request : BlockRequest.t) : Z :=
  if bool_decide (BlockRequest.block_begin request
                  + BlockRequest.block_length request = _length self)%Z
  then Z.of_nat (length arr)
  else ((BlockRequest.block_begin request
         + BlockRequest.block_length request) / MARKED_BLOCK_SIZE)%Z.

Definition mark_downloaded_blocks (futures : list BlockRequestFuture.t)
    (self : t) (source : Peer.t) (request : BlockRequest.t)
  : outcome (list BlockRequestFuture.t * t) :=
  if _downloaded self then Raised ValueError (futures, self)
  else
    match _sources self with
    | None => Raised AttributeError (futures, self)
    | Some sources =>
        let sources' := Some (peer_set_add sources source) in
        let alloc :=
          match _block_downloaded self with
          | Some arr => inr arr
          | None =>
              let n := ceil_div (_length self) MARKED_BLOCK_SIZE in
              if (n <? 0)%Z then inl ValueError
              else inr (replicate (Z.to_nat n) false)
          end in
        match alloc with
        | inl e =>
            Raised e (futures,
                      with_blocks self sources' (_block_downloaded self)
                        (_blocks_expected self))
        | inr arr =>
            let arr' :=
              slice_assign arr (mark_begin request)
                (mark_end self arr request) true in
            match _blocks_expected self with
            | None =>
                Raised TypeError
                  (futures, with_blocks self sources' (Some arr') None)
            | Some expected =>
                match scan_expected arr' source expected futures [] with
                | Raised e (futures', _) =>
                    Raised e
                      (futures',
                       with_blocks self sources' (Some arr') (Some expected))
                | Returned (futures', downloaded_blocks) =>
                    Returned
                      (futures',
                       with_blocks self sources' (Some arr')
                         (Some (foldl (future_set_remove futures') expected
                                  downloaded_blocks)))
                end
            end
        end
    end.

Definition are_all_blocks_downloaded (self : t) : bool :=
  _downloaded self
  || match _block_downloaded self with
     | Some arr => bits_all arr
     | None => false
     end.

Definition mark_as_downloaded (self : t) : outcome t :=
  if _downloaded self then Raised ValueError self
  else
    Returned
      {| _piece_hash := _piece_hash self; _length := _length self;
         selected := selected self; owners := owners self;
         validating := validating self;
         _downloaded := true;
         _sources := None;
         _block_downloaded := None;
         _blocks_expected := None |}.
End PieceInfo.

(** ** The file tree *)

(** [FileTreeNode = Union[FileInfo, Dict[str, Any]]].  A leaf is the very
    [FileInfo] object held in [DownloadInfo.files]; it is denoted by its
    position in that list, so that a flag set through the tree is seen
    through the list and conversely. *)
Inductive FileTreeNode :=
| FileLeaf (file : nat)
| Directory (entries : list (string * FileTreeNode)).

(** The body of the loop of [_create_file_tree] for a file with a
    non-empty path: descend with [setdefault] along [path[:-1]], then
    assign the leaf under [path[-1]].  Reaching a [FileInfo] where a
    directory is needed fails: it has neither [setdefault] nor item
    assignment. *)
Fixpoint tree_insert (node : FileTreeNode) (path : list string) (file : nat)
  : exn + FileTreeNode :=
  match path with
  | [] => inr node
  | [name] =>
      match node with
      | Directory entries => inr (Directory (dict_set entries name (FileLeaf file)))
      | FileLeaf _ => inl TypeError
      end
  | elem :: rest =>
      match node with
      | Directory entries =>
          let child := default (Directory []) (dict_get entries elem) in
          match tree_insert child rest file with
          | inl e => inl e
          | inr child' => inr (Directory (dict_set entries elem child'))
          end
      | FileLeaf _ => inl AttributeError
      end
  end.

(** [_create_file_tree]: [index] is the position of the next file and
    [offset] the running offset. *)
Fixpoint _create_file_tree (files : list FileInfo.t) (index : nat)
    (offset : Z) (tree : FileTreeNode)
  : exn + (list FileInfo.t * FileTreeNode) :=
  match files with
  | [] => inr ([], tree)
  | item :: rest =>
      let item' := FileInfo.set_offset offset item in
      let offset' := (offset + FileInfo._length item)%Z in
      let inserted :=
        match FileInfo._path item with
        | [] => inr (FileLeaf index)
        | path => tree_insert tree path index
        end in
      match inserted with
      | inl e => inl e
      | inr tree' =>
          match _create_file_tree rest (S index) offset' tree' with
          | inl e => inl e
          | inr (files', tree'') => inr (item' :: files', tree'')
          end
      end
  end.

(** [_get_file_tree_node]: a missing key is turned into a [ValueError];
    subscripting a [FileInfo] is a [TypeError], which is not caught. *)
Fixpoint _get_file_tree_node (result : FileTreeNode) (path : list string)
  : exn + FileTreeNode :=
  match path with
  | [] => inr result
  | elem :: rest =>
      match result with
      | Directory entries =>
          match dict_get entries elem with
          | Some child => _get_file_tree_node child rest
          | None => inl ValueError
          end
      | FileLeaf _ => inl TypeError
      end
  end.

(** [_traverse_nodes]: the files below a node, depth first, in the order of
    the dictionaries. *)
Fixpoint _traverse_nodes (node : FileTreeNode) : list nat :=
  match node with
  | FileLeaf file => [file]
  | Directory entries => concat (map (fun kv => _traverse_nodes kv.2) entries)
  end.

(** ** Segments of [select_files] *)

(** The order of [segments.sort()]: tuples compare lexicographically. *)
Definition segment_le (a b : Z * Z) : Prop :=
  (a.1 < b.1)%Z \/ (a.1 = b.1 /\ (a.2 <= b.2)%Z).

#[global] Instance segment_le_dec : RelDecision segment_le.
Proof. intros a b. unfold segment_le. apply _. Defined.

(** One round of the merging loop: a segment that starts where the last
    united one ends extends it, any other is appended. *)
Definition unite_step (united_segments : list (Z * Z)) (cur_segment : Z * Z)
  : list (Z * Z) :=
  match last united_segments with
  | Some last_segment =>
      if bool_decide (last_segment.1 + last_segment.2 = cur_segment.1)%Z then
        <[pred (length united_segments) :=
            (last_segment.1, (last_segment.2 + cur_segment.2)%Z)]>
          united_segments
      else united_segments ++ [cur_segment]
  | None => united_segments ++ [cur_segment]
  end.

Definition unite (segments : list (Z * Z)) : list (Z * Z) :=
  foldl unite_step [] segments.

(** The half-open piece range of a united segment. *)
Definition piece_range (include_paths : bool) (piece_length : Z)
    (segment : Z * Z) : Z * Z :=
  let '(offset, length) := segment in
  if include_paths then
    ((offset / piece_length)%Z, ceil_div (offset + length) piece_length)
  else
    (ceil_div offset piece_length, ((offset + length) / piece_length)%Z).

(** [pieces[index].selected = v]. *)
Definition set_piece_selected (heap : list PieceInfo.t) (pieces : list nat)
    (index : Z) (v : bool) : option (list PieceInfo.t) :=
  match py_index (length pieces) index with
  | None => None
  | Some k =>
      match pieces !! k with
      | Some a => Some (alter (PieceInfo.set_selected v) a heap)
      | None => None
      end
  end.

(** [for index in range(...): self.pieces[index].selected = v]. *)
Fixpoint mark_indices (v : bool) (pieces : list nat) (indices : list Z)
    (heap : list PieceInfo.t) : outcome (list PieceInfo.t) :=
  match indices with
  | [] => Returned heap
  | index :: rest =>
      match set_piece_selected heap pieces index v with
      | None => Raised IndexError heap
      | Some heap' => mark_indices v pieces rest heap'
      end
  end.

(** The last loop of [select_files]. *)
Fixpoint mark_segments (include_paths : bool) (piece_length : Z)
    (pieces : list nat) (united_segments : list (Z * Z))
    (heap : list PieceInfo.t) : outcome (list PieceInfo.t) :=
  match united_segments with
  | [] => Returned heap
  | segment :: rest =>
      if bool_decide (piece_length = 0%Z) then Raised ZeroDivisionError heap
      else
        let '(piece_begin, piece_end) :=
          piece_range include_paths piece_length segment in
        match mark_indices include_paths pieces
                (py_range piece_begin piece_end) heap with
        | Raised e heap' => Raised e heap'
        | Returned heap' =>
            mark_segments include_paths piece_length pieces rest heap'
        end
  end.

(** The inner loop over [_traverse_nodes(...)]: flag the file and collect
    its segment.  [offset] is assigned to every file by
    [DownloadInfo.__init__]; a file still without one would make Python
    fail with a [TypeError] as soon as its segment enters the
    arithmetic, and the model raises it where the segment is collected. *)
Fixpoint mark_nodes (include_paths : bool) (nodes : list nat)
    (files : list FileInfo.t) (segments : list (Z * Z))
  : outcome (list FileInfo.t * list (Z * Z)) :=
  match nodes with
  | [] => Returned (files, segments)
  | n :: rest =>
      match files !! n with
      | None => mark_nodes include_paths rest files segments
      | Some node =>
          let files' := <[n := FileInfo.set_selected include_paths node]> files in
          match FileInfo.offset node with
          | None => Raised TypeError (files', segments)
          | Some o =>
              mark_nodes include_paths rest files'
                (segments ++ [(o, FileInfo._length node)])
          end
      end
  end.

(** The loop over [paths]. *)
Fixpoint select_paths (include_paths : bool) (tree : FileTreeNode)
    (paths : list (list string)) (files : list FileInfo.t)
    (segments : list (Z * Z))
  : outcome (list FileInfo.t * list (Z * Z)) :=
  match paths with
  | [] => Returned (files, segments)
  | path :: rest =>
      match _get_file_tree_node tree path with
      | inl e => Raised e (files, segments)
      | inr node =>
          match mark_nodes include_paths (_traverse_nodes node) files segments with
          | Raised e s => Raised e s
          | Returned (files', segments') =>
              select_paths include_paths tree rest files' segments'
          end
      end
  end.

(** ** DownloadInfo *)

Module DownloadInfo.
(** [_pieces] holds the addresses of the piece objects in the store of
    pieces.  [_session_statistics] is left out: no property below
    depends on it. *)
Record t := {
  info_hash : list Byte.byte;
  piece_length : Z;
  suggested_name : string;
  files : list FileInfo.t;
  _file_tree : FileTreeNode;
  private : bool;
  _pieces : list nat;
  _interesting_pieces : option (gset Z);
  downloaded_piece_count : Z;
  _complete : bool;
  _host_distrust_rates : gmap string Z
}.

Definition DISTRUST_RATE_TO_BAN : Z := 5.

Definition pieces (self : t) : list nat := _pieces self.
Definition piece_count (self : t) : Z := Z.of_nat (length (_pieces self)).

(** [sum(file.length for file in files)]. *)
Definition sum_lengths (files : list FileInfo.t) : Z :=
  foldr (fun file acc => (FileInfo._length file + acc)%Z) 0%Z files.

Definition total_size (self : t) : Z := sum_lengths (files self).

(** The piece objects built by [__init__], in order. *)
Definition initial_pieces (piece_length : Z)
    (piece_hashes : list (list Byte.byte)) (total_size : Z)
  : list PieceInfo.t :=
  let last_piece_length :=
    (total_size - (Z.of_nat (length piece_hashes) - 1) * piece_length)%Z in
  map (fun item => PieceInfo.__init__ item piece_length)
    (removelast piece_hashes)
  ++ [PieceInfo.__init__ (List.last piece_hashes []) last_piece_length].

(** [__init__].  The new piece objects are allocated at the end of the
    store.  When the constructor raises, no object is returned. *)
Definition __init__ (heap : list PieceInfo.t) (info_hash : list Byte.byte)
    (piece_length : Z) (piece_hashes : list (list Byte.byte))
    (suggested_name : string) (files : list FileInfo.t) (private : bool)
  : exn + (list PieceInfo.t * t) :=
  match _create_file_tree files 0 0%Z (Directory []) with
  | inl e => inl e
  | inr (files', tree) =>
      match piece_hashes with
      | [] => inl AssertionError
      | _ =>
          let new_pieces :=
            initial_pieces piece_length piece_hashes (sum_lengths files') in
          let piece_count := Z.of_nat (length piece_hashes) in
          if bool_decide (piece_length = 0%Z) then inl ZeroDivisionError
          else if bool_decide
                    (ceil_div (sum_lengths files') piece_length ≠ piece_count)
          then inl ValueError
          else
            inr (heap ++ new_pieces,
                 {| info_hash := info_hash;
                    piece_length := piece_length;
                    suggested_name := suggested_name;
                    files := files';
                    _file_tree := tree;
                    private := private;
                    _pieces := seq (length heap) (length new_pieces);
                    _interesting_pieces := None;
                    downloaded_piece_count := 0%Z;
                    _complete := false;
                    _host_distrust_rates := ∅ |})
      end
  end.

Definition with_files (self : t) (files' : list FileInfo.t) : t :=
  {| info_hash := info_hash self; piece_length := piece_length self;
     suggested_name := suggested_name self;
     files := files';
     _file_tree := _file_tree self; private := private self;
     _pieces := _pieces self;
     _interesting_pieces := _interesting_pieces self;
     downloaded_piece_count := downloaded_piece_count self;
     _complete := _complete self;
     _host_distrust_rates := _host_distrust_rates self |}.

(** [for info in self.pieces: info.selected = v]. *)
Definition set_all_pieces (v : bool) (pieces : list nat)
    (heap : list PieceInfo.t) : list PieceInfo.t :=
  foldl (fun h a => alter (PieceInfo.set_selected v) a h) heap pieces.

(** [len(self.files) == 1 and not self.files[0].path]. *)
Definition is_single_file (self : t) : bool :=
  match files self with
  | [file] => bool_decide (FileInfo._path file = [])
  | _ => false
  end.

Definition select_files (heap : list PieceInfo.t) (self : t)
    (paths : list (list string)) (mode : string)
  : outcome (list PieceInfo.t * t) :=
  if negb (bool_decide (mode = "whitelist") || bool_decide (mode = "blacklist"))
  then Raised ValueError (heap, self)
  else
    let include_paths := bool_decide (mode = "whitelist") in
    if is_single_file self then Raised ValueError (heap, self)
    else
      let heap1 := set_all_pieces (negb include_paths) (pieces self) heap in
      let files1 :=
        map (FileInfo.set_selected (negb include_paths)) (files self) in
      match select_paths include_paths (_file_tree self) paths files1 [] with
      | Raised e (files2, _) => Raised e (heap1, with_files self files2)
      | Returned (files2, segments) =>
          let self2 := with_files self files2 in
          if (include_paths && bool_decide (segments = []))
             || (negb include_paths
                 && bool_decide (length segments = length (files self)))
          then Raised ValueError (heap1, self2)
          else
            let united_segments := unite (merge_sort segment_le segments) in
            match mark_segments include_paths (piece_length self)
                    (pieces self) united_segments heap1 with
            | Raised e heap2 => Raised e (heap2, self2)
            | Returned heap2 => Returned (heap2, self2)
            end
      end.

(** [reset_run_state]: shallow copies of the piece objects are allocated
    at fresh addresses, then each copy is reset in place; the objects of
    the previous run are left as they are. *)
Definition reset_run_state (heap : list PieceInfo.t) (self : t)
  : list PieceInfo.t * t :=
  let copies := omap (fun a => heap !! a) (_pieces self) in
  let pieces' := seq (length heap) (length copies) in
  let heap1 := heap ++ copies in
  let heap2 :=
    foldl (fun h a => alter PieceInfo.reset_run_state a h) heap1 pieces' in
  (heap2,
   {| info_hash := info_hash self; piece_length := piece_length self;
      suggested_name := suggested_name self;
      files := files self;
      _file_tree := _file_tree self; private := private self;
      _pieces := pieces';
      _interesting_pieces := Some ∅;
      downloaded_piece_count := downloaded_piece_count self;
      _complete := _complete self;
      _host_distrust_rates := _host_distrust_rates self |}).

Definition get_real_piece_length (self : t) (index : Z) : Z :=
  if bool_decide (index = piece_count self - 1)%Z then
    (total_size self - piece_length self * (piece_count self - 1))%Z
  else piece_length self.

(** [bytes_left]; [self._pieces[last_piece_index]] is an [IndexError]
    on an empty list of pieces. *)
Definition bytes_left (heap : list PieceInfo.t) (self : t) : exn + Z :=
  let result :=
    ((piece_count self - downloaded_piece_count self) * piece_length self)%Z in
  let last_piece_index := (piece_count self - 1)%Z in
  match py_index (length (_pieces self)) last_piece_index with
  | None => inl IndexError
  | Some k =>
      match _pieces self !! k ≫= (fun a => heap !! a) with
      | None => inl IndexError
      | Some last_piece =>
          if negb (PieceInfo._downloaded last_piece) then
            inr (result + (PieceInfo._length last_piece - piece_length self))%Z
          else inr result
      end
  end.

Definition increase_distrust (self : t) (peer : Peer.t) : t :=
  {| info_hash := info_hash self; piece_length := piece_length self;
     suggested_name := suggested_name self;
     files := files self;
     _file_tree := _file_tree self; private := private self;
     _pieces := _pieces self;
     _interesting_pieces := _interesting_pieces self;
     downloaded_piece_count := downloaded_piece_count self;
     _complete := _complete self;
     _host_distrust_rates :=
       <[Peer.host peer :=
           (default 0%Z (_host_distrust_rates self !! Peer.host peer) + 1)%Z]>
         (_host_distrust_rates self) |}.

Definition is_banned (self : t) (peer : Peer.t) : bool :=
  match _host_distrust_rates self !! Peer.host peer with
  | Some rate => bool_decide (DISTRUST_RATE_TO_BAN <= rate)%Z
  | None => false
  end.
End DownloadInfo.

(** The piece object behind [self.pieces[i]]. *)
Definition piece_at (heap : list PieceInfo.t) (self : DownloadInfo.t)
    (i : nat) : option PieceInfo.t :=
  DownloadInfo._pieces self !! i ≫= (fun a => heap !! a).

(** The piece objects of a transfer, in piece order. *)
Definition pieces_of (heap : list PieceInfo.t) (self : DownloadInfo.t)
  : list PieceInfo.t :=
  omap (fun a => heap !! a) (DownloadInfo._pieces self).

(** The references of [self._pieces] denote distinct live objects. *)
Definition pieces_wf (heap : list PieceInfo.t) (self : DownloadInfo.t) : Prop :=
  NoDup (DownloadInfo._pieces self)
  /\ Forall (fun a => a < length heap) (DownloadInfo._pieces self).

(** [increase_distrust] called once for each peer of [calls], in order. *)
Definition distrust_all (self : DownloadInfo.t) (calls : list Peer.t)
  : DownloadInfo.t :=
  foldl DownloadInfo.increase_distrust self calls.

(** How many of [calls] name the host [h]. *)
Definition calls_for_host (h : string) (calls : list Peer.t) : nat :=
  length (filter (fun q => Peer.host q = h) calls).

(** The state an outcome leaves behind, returned or raised. *)
Definition outcome_state {S} (o : outcome S) : S :=
  match o with
  | Returned s => s
  | Raised _ s => s
  end.

(** The files with their offsets assigned, as the loop of
    [_create_file_tree] leaves them when it does not fail. *)
Fixpoint assign_offsets (offset : Z) (files : list FileInfo.t)
  : list FileInfo.t :=
  match files with
  | [] => []
  | item :: rest =>
      FileInfo.set_offset offset item
      :: assign_offsets (offset + FileInfo._length item)%Z rest
  end.


(** A future once [set_result(source)] has run on it. *)
Definition resolved (source : Peer.t) (fut : BlockRequestFuture.t)
  : BlockRequestFuture.t :=
  {| BlockRequestFuture.request := BlockRequestFuture.request fut;
     BlockRequestFuture._state := FINISHED source;
     BlockRequestFuture.prev_performers := BlockRequestFuture.prev_performers fut;
     BlockRequestFuture.performer := BlockRequestFuture.performer fut |}.


(** The test of the scan, for the future at address [r]. *)
Definition is_covered (futures : list BlockRequestFuture.t) (arr : list bool)
    (r : nat) : bool :=
  match futures !! r with
  | Some fut =>
      bits_all (py_slice arr (PieceInfo.query_begin fut) (PieceInfo.query_end fut))
  | None => false
  end.


(** The bitfield [mark_downloaded_blocks] works on: the one of the piece,
    or a fresh one of [ceil(length / MARKED_BLOCK_SIZE)] cleared bits. *)
Definition current_bitfield (self : PieceInfo.t) : list bool :=
  match PieceInfo._block_downloaded self with
  | Some arr => arr
  | None =>
      replicate (Z.to_nat (ceil_div (PieceInfo._length self) MARKED_BLOCK_SIZE))
        false
  end.

(** The segment [(node.offset, node.length)] of the file at position [n]. *)
Definition node_segment (files : list FileInfo.t) (n : nat) : option (Z * Z) :=
  match files !! n with
  | Some node =>
      match FileInfo.offset node with
      | Some o => Some (o, FileInfo._length node)
      | None => None
      end
  | None => None
  end.

(** The files reached from [paths], in the order [select_files] visits
    them (a file reached twice is listed twice). *)
Definition reached_files (tree : FileTreeNode) (paths : list (list string))
  : list nat :=
  flat_map (fun path =>
              match _get_file_tree_node tree path with
              | inr node => _traverse_nodes node
              | inl _ => []
              end) paths.

(** [node.selected = v] for each of [nodes]. *)
Definition mark_files (v : bool) (nodes : list nat) (files : list FileInfo.t)
  : list FileInfo.t :=
  foldl (fun fs n => alter (FileInfo.set_selected v) n fs) files nodes.

(** The list [segments] and the list [united_segments] of a call of
    [select_files] that gets as far as computing them. *)
Definition selected_segments (self : DownloadInfo.t)
    (paths : list (list string)) : list (Z * Z) :=
  omap (node_segment (DownloadInfo.files self))
    (reached_files (DownloadInfo._file_tree self) paths).

Definition united_segments_of (self : DownloadInfo.t)
    (paths : list (list string)) : list (Z * Z) :=
  unite (merge_sort segment_le (selected_segments self paths)).

(** [k in range(r.1, r.2)]. *)
Definition in_piece_range (r : Z * Z) (k : nat) : bool :=
  bool_decide (r.1 <= Z.of_nat k < r.2)%Z.

(** Piece [k] marked by the last loop of [select_files]. *)
Definition piece_marked (include_paths : bool) (piece_length : Z)
    (united_segments : list (Z * Z)) (k : nat) : bool :=
  existsb (fun segment =>
             in_piece_range (piece_range include_paths piece_length segment) k)
    united_segments.

(** Every file has its offset, and offsets and lengths are not negative. *)
Definition files_wf (files : list FileInfo.t) : Prop :=
  Forall (fun f => exists o, FileInfo.offset f = Some o /\ (0 <= o)%Z
                             /\ (0 <= FileInfo._length f)%Z) files.



(** Is [mode] one of the two accepted ones. *)
Definition valid_mode (mode : string) : bool :=
  bool_decide (mode = "whitelist") || bool_decide (mode = "blacklist").

(** ** Sample transfers

    Concrete states on which the properties below are instantiated. *)

Definition peer_a : Peer.t :=
  {| Peer._host := "10.0.0.1"; Peer._port := 6881; Peer.peer_id := None |}.
Definition peer_a' : Peer.t :=
  {| Peer._host := "10.0.0.1"; Peer._port := 51413; Peer.peer_id := None |}.
Definition peer_b : Peer.t :=
  {| Peer._host := "10.0.0.2"; Peer._port := 6881; Peer.peer_id := None |}.

(** Three files of 1500, 1000 and 500 bytes in pieces of 1024 bytes: the
    first two share piece 1, the last two share piece 2. *)
Definition sample_files : list FileInfo.t :=
  [FileInfo.__init__ 1500 ["a"; "x"] None;
   FileInfo.__init__ 1000 ["a"; "y"] None;
   FileInfo.__init__ 500 ["b"] None].

Definition sample_hashes : list (list Byte.byte) :=
  [[Byte.x00]; [Byte.x01]; [Byte.x02]].

Definition sample_heap : list PieceInfo.t :=
  Eval vm_compute in
    match DownloadInfo.__init__ [] [] 1024 sample_hashes "sample" sample_files
            false with
    | inr (heap, _) => heap
    | inl _ => []
    end.

Definition sample_transfer : DownloadInfo.t :=
  Eval vm_compute in
    match DownloadInfo.__init__ [] [] 1024 sample_hashes "sample" sample_files
            false with
    | inr (_, d) => d
    | inl _ =>
        {| DownloadInfo.info_hash := []; DownloadInfo.piece_length := 0;
           DownloadInfo.suggested_name := ""; DownloadInfo.files := [];
           DownloadInfo._file_tree := Directory [];
           DownloadInfo.private := false; DownloadInfo._pieces := [];
           DownloadInfo._interesting_pieces := None;
           DownloadInfo.downloaded_piece_count := 0;
           DownloadInfo._complete := false;
           DownloadInfo._host_distrust_rates := ∅ |}
    end.

(** A later run of the sample transfer: piece 0 is downloaded, piece 1 has
    an owner and one expected future. *)
Definition run_heap : list PieceInfo.t :=
  [ {| PieceInfo._piece_hash := [Byte.x00]; PieceInfo._length := 1024;
       PieceInfo.selected := true; PieceInfo.owners := [peer_a];
       PieceInfo.validating := false; PieceInfo._downloaded := true;
       PieceInfo._sources := None; PieceInfo._block_downloaded := None;
       PieceInfo._blocks_expected := None |};
    {| PieceInfo._piece_hash := [Byte.x01]; PieceInfo._length := 1024;
       PieceInfo.selected := true; PieceInfo.owners := [peer_a; peer_b];
       PieceInfo.validating := false; PieceInfo._downloaded := false;
       PieceInfo._sources := Some [peer_b];
       PieceInfo._block_downloaded := Some [false];
       PieceInfo._blocks_expected := Some [0] |};
    {| PieceInfo._piece_hash := [Byte.x02]; PieceInfo._length := 952;
       PieceInfo.selected := true; PieceInfo.owners := [];
       PieceInfo.validating := false; PieceInfo._downloaded := false;
       PieceInfo._sources := Some []; PieceInfo._block_downloaded := None;
       PieceInfo._blocks_expected := Some [] |} ].

(** A piece of 1500 bytes with three expected futures, for the byte ranges
    [0, 512), [0, 1024) and [1024, 1500). *)
Definition pending_futures : list BlockRequestFuture.t :=
  [BlockRequestFuture.__init__ 0 0 512;
   BlockRequestFuture.__init__ 0 0 1024;
   BlockRequestFuture.__init__ 0 1024 476].

Definition pending_piece : PieceInfo.t :=
  {| PieceInfo._piece_hash := [Byte.x00]; PieceInfo._length := 1500;
     PieceInfo.selected := true; PieceInfo.owners := [peer_a];
     PieceInfo.validating := false; PieceInfo._downloaded := false;
     PieceInfo._sources := Some []; PieceInfo._block_downloaded := None;
     PieceInfo._blocks_expected := Some [0; 1; 2] |}.

(** The sample transfer after [select_files([["a", "x"]], "whitelist")], and
    after [select_files([["a", "y"], ["b"]], "whitelist")] on top of it. *)
Definition after_whitelist_x : list PieceInfo.t * DownloadInfo.t :=
  Eval vm_compute in
    outcome_state
      (DownloadInfo.select_files sample_heap sample_transfer [["a"; "x"]]
         "whitelist").


(** A single-file transfer of 1500 bytes in two pieces. *)
Definition single_file_transfer : list PieceInfo.t * DownloadInfo.t :=
  Eval vm_compute in
    match DownloadInfo.__init__ [] [] 1024 [[Byte.x00]; [Byte.x01]] "single"
            [FileInfo.__init__ 1500 [] None] false with
    | inr s => s
    | inl _ => (sample_heap, sample_transfer)
    end.

(** ** Invariants used by the further properties *)

(** The bookkeeping of a piece: a downloaded piece has dropped its sources
    and its bitfield; a piece still to download has a set of sources and a
    set of expected futures; a bitfield, when allocated, has one bit per
    [MARKED_BLOCK_SIZE] bytes of the piece, rounded up. *)
Definition piece_inv (p : PieceInfo.t) : Prop :=
  (PieceInfo._downloaded p = true ->
   PieceInfo._sources p = None /\ PieceInfo._block_downloaded p = None)
  /\ (PieceInfo._downloaded p = false ->
      is_Some (PieceInfo._sources p) /\ is_Some (PieceInfo._blocks_expected p))
  /\ (forall arr, PieceInfo._block_downloaded p = Some arr ->
        length arr
        = Z.to_nat (ceil_div (PieceInfo._length p) MARKED_BLOCK_SIZE)).

(** The expected futures are distinct, live and still pending. *)
Definition expected_pending (futures : list BlockRequestFuture.t)
    (expected : list nat) : Prop :=
  NoDup expected
  /\ forall r, r ∈ expected ->
       exists fut, futures !! r = Some fut
                   /\ BlockRequestFuture._state fut = PENDING.



(** The host counter read by [is_banned], [0] for a host never
    distrusted. *)
Definition distrust_rate (self : DownloadInfo.t) (h : string) : Z :=
  default 0%Z (DownloadInfo._host_distrust_rates self !! h).


(** The sample transfer after [select_files([["a", "x"]], "blacklist")]. *)
Definition after_blacklist_x : list PieceInfo.t * DownloadInfo.t :=
  Eval vm_compute in
    outcome_state
      (DownloadInfo.select_files sample_heap sample_transfer [["a"; "x"]]
         "blacklist").


(** No path of the list is a prefix of another one (equal paths
    included). *)
Definition prefix_free (paths : list (list string)) : Prop :=
  forall i j p q, paths !! i = Some p -> paths !! j = Some q -> i <> j ->
    ~ p `prefix_of` q.


(** ** Peer hashing *)

(** [Peer.__hash__]: the constructor stores [hash((host, port))] in
    [_hash], and [host] and [port] are read-only, so the hash is a
    function of the two; the built-in [hash] of a pair is kept abstract. *)
Definition Peer___hash__ (pair_hash : string * Z -> Z) (self : Peer.t) : Z :=
  pair_hash (Peer._host self, Peer._port self).

(** ** SessionStatistics *)

(** The key under which a [dict] files a peer: [Peer.__eq__] and
    [Peer.__hash__] look at the host and the port only. *)
Definition peer_key (p : Peer.t) : string * Z := (Peer._host p, Peer._port p).

Module SessionStatistics.
(** Time stamps are the floats of [time.time()]; they are only stored and
    compared, so their type is a parameter.  [download_speed] and
    [upload_speed], which no method of the class touches, are left out. *)
Record t (time : Type) := {
  peer_count : Z;
  _peer_last_download : gmap (string * Z) time;
  _peer_last_upload : gmap (string * Z) time;
  _downloaded_per_session : Z;
  _uploaded_per_session : Z;
  _total_downloaded : Z;
  _total_uploaded : Z
}.
Arguments peer_count {time} _.
Arguments _peer_last_download {time} _.
Arguments _peer_last_upload {time} _.
Arguments _downloaded_per_session {time} _.
Arguments _uploaded_per_session {time} _.
Arguments _total_downloaded {time} _.
Arguments _total_uploaded {time} _.

Definition __init__ {time} (prev_session_stats : option (t time)) : t time :=
  {| peer_count := 0;
     _peer_last_download := ∅;
     _peer_last_upload := ∅;
     _downloaded_per_session := 0;
     _uploaded_per_session := 0;
     _total_downloaded :=
       match prev_session_stats with
       | Some prev => _total_downloaded prev
       | None => 0%Z
       end;
     _total_uploaded :=
       match prev_session_stats with
       | Some prev => _total_uploaded prev
       | None => 0%Z
       end |}.

(** [add_downloaded]; [now] is the value of [time.time()] at the call. *)
Definition add_downloaded {time} (self : t time) (peer : Peer.t) (now : time)
    (size : Z) : t time :=
  {| peer_count := peer_count self;
     _peer_last_download := <[peer_key peer := now]> (_peer_last_download self);
     _peer_last_upload := _peer_last_upload self;
     _downloaded_per_session := (_downloaded_per_session self + size)%Z;
     _uploaded_per_session := _uploaded_per_session self;
     _total_downloaded := (_total_downloaded self + size)%Z;
     _total_uploaded := _total_uploaded self |}.

Definition add_uploaded {time} (self : t time) (peer : Peer.t) (now : time)
    (size : Z) : t time :=
  {| peer_count := peer_count self;
     _peer_last_download := _peer_last_download self;
     _peer_last_upload := <[peer_key peer := now]> (_peer_last_upload self);
     _downloaded_per_session := _downloaded_per_session self;
     _uploaded_per_session := (_uploaded_per_session self + size)%Z;
     _total_downloaded := _total_downloaded self;
     _total_uploaded := (_total_uploaded self + size)%Z |}.

(** [_get_actual_peer_count]; [recent t] stands for
    [cur_time - t <= PEER_CONSIDERATION_TIME] with [cur_time] read when
    the count is taken. *)
Definition _get_actual_peer_count {time} (recent : time -> bool)
    (time_dict : gmap (string * Z) time) : nat :=
  length (filter (fun kv => recent kv.2 = true) (map_to_list time_dict)).

Definition downloading_peer_count {time} (recent : time -> bool)
    (self : t time) : nat :=
  _get_actual_peer_count recent (_peer_last_download self).

Definition uploading_peer_count {time} (recent : time -> bool)
    (self : t time) : nat :=
  _get_actual_peer_count recent (_peer_last_upload self).
End SessionStatistics.

(** [DownloadInfo.reset_stats], on the statistics object it replaces. *)
Definition reset_stats {time} (stats : SessionStatistics.t time)
  : SessionStatistics.t time :=
  SessionStatistics.__init__ (Some stats).

(** What happens to the statistics during a session. *)
Inductive transfer_event (time : Type) :=
| Downloaded (peer : Peer.t) (now : time) (size : Z)
| Uploaded (peer : Peer.t) (now : time) (size : Z).
Arguments Downloaded {time} peer now size.
Arguments Uploaded {time} peer now size.

Definition record_event {time} (stats : SessionStatistics.t time)
    (ev : transfer_event time) : SessionStatistics.t time :=
  match ev with
  | Downloaded peer now size =>
      SessionStatistics.add_downloaded stats peer now size
  | Uploaded peer now size =>
      SessionStatistics.add_uploaded stats peer now size
  end.

Definition record_events {time} (stats : SessionStatistics.t time)
    (events : list (transfer_event time)) : SessionStatistics.t time :=
  foldl record_event stats events.

(** The bytes downloaded, and uploaded, by a list of events. *)
Definition downloaded_bytes {time} (events : list (transfer_event time)) : Z :=
  foldr (fun ev acc =>
           match ev with
           | Downloaded _ _ size => (size + acc)%Z
           | Uploaded _ _ _ => acc
           end) 0%Z events.

Definition uploaded_bytes {time} (events : list (transfer_event time)) : Z :=
  foldr (fun ev acc =>
           match ev with
           | Uploaded _ _ size => (size + acc)%Z
           | Downloaded _ _ _ => acc
           end) 0%Z events.

(** Is the event a download from a peer filed under [key]. *)
Definition is_download_from {time} (key : string * Z)
    (ev : transfer_event time) : bool :=
  match ev with
  | Downloaded peer _ _ => bool_decide (peer_key peer = key)
  | Uploaded _ _ _ => false
  end.

(** The number of download events. *)
Definition download_count {time} (events : list (transfer_event time)) : nat :=
  length (filter (fun ev => match ev with
                            | Downloaded _ _ _ => true
                            | Uploaded _ _ _ => false
                            end = true) events).

(** ** Peer.from_compact_form *)

(** [struct.error], raised by [struct.unpack] when the data does not have
    the size of the format. *)
Inductive struct_exn := struct_error.

(** A decimal digit, and the decimal notation of a byte as
    [socket.inet_ntoa] prints it: no leading zero. *)
Definition decimal_digit (n : N) : Ascii.ascii := Ascii.ascii_of_N (48 + n).

Definition decimal_of_byte (b : Byte.byte) : string :=
  let n := Byte.to_N b in
  if (n <? 10)%N then String (decimal_digit n) ""
  else if (n <? 100)%N then
    String (decimal_digit (n / 10)) (String (decimal_digit (n mod 10)) "")
  else
    String (decimal_digit (n / 100))
      (String (decimal_digit (n / 10 mod 10))
         (String (decimal_digit (n mod 10)) "")).

(** [socket.inet_ntoa] on the four bytes of an address. *)
Definition inet_ntoa (a b c d : Byte.byte) : string :=
  decimal_of_byte a +:+ "." +:+ decimal_of_byte b +:+ "."
  +:+ decimal_of_byte c +:+ "." +:+ decimal_of_byte d.

(** [struct.unpack('!4sH', data)] wants exactly six bytes: four of address
    and an unsigned short in network (big-endian) order. *)
Definition from_compact_form (data : list Byte.byte) : struct_exn + Peer.t :=
  match data with
  | [a; b; c; d; hi; lo] =>
      inr {| Peer._host := inet_ntoa a b c d;
             Peer._port := (256 * Z.of_N (Byte.to_N hi)
                            + Z.of_N (Byte.to_N lo))%Z;
             Peer.peer_id := None |}
  | _ => inl struct_error
  end.

(** Devices of the proofs about [inet_ntoa]. *)
Definition has_no_dot (s : string) : bool :=
  forallb (fun c => negb (Ascii.eqb c (Ascii.ascii_of_N 46))) (String.list_ascii_of_string s).

(** Reading a decimal notation back. *)
Definition read_decimal (s : string) : N :=
  foldl (fun acc c => (10 * acc + (Ascii.N_of_ascii c - 48))%N) 0%N
    (String.list_ascii_of_string s).


(** ** The [complete] flag *)

(** The setter of [DownloadInfo.complete]: the assertion is checked only
    when the flag is raised. *)
Definition set_complete (heap : list PieceInfo.t) (self : DownloadInfo.t)
    (value : bool) : exn + DownloadInfo.t :=
  if value
     && negb (forallb
                (fun info =>
                   PieceInfo._downloaded info || negb (PieceInfo.selected info))
                (pieces_of heap self))
  then inl AssertionError
  else
    inr {| DownloadInfo.info_hash := DownloadInfo.info_hash self;
           DownloadInfo.piece_length := DownloadInfo.piece_length self;
           DownloadInfo.suggested_name := DownloadInfo.suggested_name self;
           DownloadInfo.files := DownloadInfo.files self;
           DownloadInfo._file_tree := DownloadInfo._file_tree self;
           DownloadInfo.private := DownloadInfo.private self;
           DownloadInfo._pieces := DownloadInfo._pieces self;
           DownloadInfo._interesting_pieces :=
             DownloadInfo._interesting_pieces self;
           DownloadInfo.downloaded_piece_count :=
             DownloadInfo.downloaded_piece_count self;
           DownloadInfo._complete := value;
           DownloadInfo._host_distrust_rates :=
             DownloadInfo._host_distrust_rates self |}.

(** [mark_as_downloaded] called on every piece of the transfer, in piece
    order; a call that raises leaves its piece as it was. *)
Definition mark_all_downloaded (heap : list PieceInfo.t)
    (self : DownloadInfo.t) : list PieceInfo.t :=
  foldl (fun h a =>
           alter (fun p => outcome_state (PieceInfo.mark_as_downloaded p)) a h)
    heap (DownloadInfo._pieces self).

(** * Properties *)

(** ** Equality and hashing of block requests *)






(** ** Piece state: completion and per-run reset *)

(** C6: [mark_as_downloaded] raises on a piece that is already downloaded
    and leaves it as it is; on any other piece it sets [_downloaded] and
    replaces the sources, the block bitfield and the expected futures by
    [None] (not by empty containers), leaving the other attributes alone;
    a second call on the result raises. *)
Theorem mark_as_downloaded_once (p : PieceInfo.t) :
  (PieceInfo._downloaded p = true ->
   PieceInfo.mark_as_downloaded p = Raised ValueError p)
  /\ (PieceInfo._downloaded p = false ->
      exists p',
        PieceInfo.mark_as_downloaded p = Returned p'
        /\ PieceInfo._downloaded p' = true
        /\ PieceInfo._sources p' = None
        /\ PieceInfo._block_downloaded p' = None
        /\ PieceInfo._blocks_expected p' = None
        /\ PieceInfo._piece_hash p' = PieceInfo._piece_hash p
        /\ PieceInfo._length p' = PieceInfo._length p
        /\ PieceInfo.selected p' = PieceInfo.selected p
        /\ PieceInfo.owners p' = PieceInfo.owners p
        /\ PieceInfo.validating p' = PieceInfo.validating p
        /\ PieceInfo.mark_as_downloaded p' = Raised ValueError p').
Proof.
  unfold PieceInfo.mark_as_downloaded. split; intros ->; [done |].
  eexists. split; [reflexivity |]. by repeat split.
Qed.

Lemma mark_as_downloaded_once_witness :
  exists p',
    PieceInfo.mark_as_downloaded (PieceInfo.__init__ [] 7) = Returned p'
    /\ PieceInfo._sources p' = None
    /\ PieceInfo.mark_as_downloaded p' = Raised ValueError p'.
Proof.
  destruct (mark_as_downloaded_once (PieceInfo.__init__ [] 7)) as [_ H].
  destruct (H eq_refl) as (p' & H1 & _ & H2 & _ & _ & _ & _ & _ & _ & _ & H3).
  exists p'. auto.
Defined.

Lemma pieces_of_lookup heap d i :
  Forall (fun a => a < length heap) (DownloadInfo._pieces d) ->
  pieces_of heap d !! i = piece_at heap d i.
Proof.
  unfold pieces_of, piece_at. generalize (DownloadInfo._pieces d) as l.
  intros l Hl. revert i. induction Hl as [| a l Ha _ IH]; intros i; [done |].
  simpl. destruct (lookup_lt_is_Some_2 heap a Ha) as [p Hp]. rewrite Hp.
  destruct i; simpl; [by rewrite Hp | apply IH].
Qed.

Lemma pieces_of_length heap d :
  Forall (fun a => a < length heap) (DownloadInfo._pieces d) ->
  length (pieces_of heap d) = length (DownloadInfo._pieces d).
Proof.
  unfold pieces_of. generalize (DownloadInfo._pieces d) as l.
  intros l Hl. induction Hl as [| a l Ha _ IH]; [done |].
  simpl. destruct (lookup_lt_is_Some_2 heap a Ha) as [p Hp]. rewrite Hp.
  simpl. f_equal. exact IH.
Qed.

Lemma foldl_alter_fresh {A} (f : A -> A) (copies heap : list A) :
  foldl (fun h a => alter f a h) (heap ++ copies)
    (seq (length heap) (length copies))
  = heap ++ map f copies.
Proof.
  revert heap. induction copies as [| c cs IH]; intros heap; [done |].
  simpl. replace (length heap) with (length heap + 0) at 1 by lia.
  rewrite alter_app_r. simpl.
  replace (heap ++ f c :: cs) with ((heap ++ [f c]) ++ cs)
    by (by rewrite <- app_assoc).
  replace (S (length heap)) with (length (heap ++ [f c]))
    by (rewrite length_app; simpl; lia).
  rewrite IH. by rewrite <- app_assoc.
Qed.

Lemma reset_run_state_heap heap d :
  (DownloadInfo.reset_run_state heap d).1
  = heap ++ map PieceInfo.reset_run_state (pieces_of heap d).
Proof. unfold DownloadInfo.reset_run_state. simpl. apply foldl_alter_fresh. Qed.

Lemma reset_run_state_piece_at heap d i p :
  Forall (fun a => a < length heap) (DownloadInfo._pieces d) ->
  piece_at heap d i = Some p ->
  piece_at (DownloadInfo.reset_run_state heap d).1
           (DownloadInfo.reset_run_state heap d).2 i
  = Some (PieceInfo.reset_run_state p).
Proof.
  intros Hwf Hp. rewrite <- pieces_of_lookup in Hp by done.
  unfold piece_at. rewrite reset_run_state_heap. simpl.
  fold (pieces_of heap d).
  pose proof (lookup_lt_Some _ _ _ Hp) as Hi.
  rewrite lookup_seq_lt by done. simpl.
  rewrite lookup_app_r by lia.
  replace (length heap + i - length heap) with i by lia.
  by rewrite list_lookup_fmap, Hp.
Qed.

(** C7: [PieceInfo.reset_run_state] empties [owners] and the expected
    futures and clears [validating], and keeps [_downloaded], the sources,
    the block bitfield, [selected], the hash and the length;
    [DownloadInfo.reset_run_state] allocates a copy of every piece at a
    fresh address and applies that reset to it, leaving the objects of the
    previous run untouched: a downloaded piece stays downloaded, and every
    piece loses its owners and expected futures. *)
Theorem reset_run_state_clears_run_fields
    (heap : list PieceInfo.t) (d : DownloadInfo.t) (q : PieceInfo.t) :
  Forall (fun a => a < length heap) (DownloadInfo._pieces d) ->
  let q' := PieceInfo.reset_run_state q in
  let heap' := (DownloadInfo.reset_run_state heap d).1 in
  let d' := (DownloadInfo.reset_run_state heap d).2 in
  (PieceInfo.owners q' = [] /\ PieceInfo.validating q' = false
   /\ PieceInfo._blocks_expected q' = Some []
   /\ PieceInfo._downloaded q' = PieceInfo._downloaded q
   /\ PieceInfo._sources q' = PieceInfo._sources q
   /\ PieceInfo._block_downloaded q' = PieceInfo._block_downloaded q
   /\ PieceInfo.selected q' = PieceInfo.selected q
   /\ PieceInfo._piece_hash q' = PieceInfo._piece_hash q
   /\ PieceInfo._length q' = PieceInfo._length q)
  /\ length (DownloadInfo._pieces d') = length (DownloadInfo._pieces d)
  /\ NoDup (DownloadInfo._pieces d')
  /\ (forall a, a ∈ DownloadInfo._pieces d' -> length heap <= a < length heap')
  /\ (forall a, a < length heap -> heap' !! a = heap !! a)
  /\ (forall i p, piece_at heap d i = Some p ->
        piece_at heap' d' i = Some (PieceInfo.reset_run_state p))
  /\ (forall i p, piece_at heap d i = Some p ->
        exists p', piece_at heap' d' i = Some p'
          /\ PieceInfo._downloaded p' = PieceInfo._downloaded p
          /\ PieceInfo._sources p' = PieceInfo._sources p
          /\ PieceInfo.owners p' = []
          /\ PieceInfo.validating p' = false
          /\ PieceInfo._blocks_expected p' = Some []).
Proof.
  intros Hwf q' heap' d'.
  assert (Hheap : heap' = heap ++ map PieceInfo.reset_run_state (pieces_of heap d))
    by apply reset_run_state_heap.
  assert (Hpieces : DownloadInfo._pieces d'
                    = seq (length heap) (length (pieces_of heap d))) by done.
  split; [by repeat split |].
  split; [by rewrite Hpieces, length_seq, pieces_of_length |].
  split; [rewrite Hpieces; apply NoDup_seq |].
  split.
  { intros a. rewrite Hpieces, elem_of_seq, Hheap, length_app, length_map. lia. }
  split; [intros a Ha; by rewrite Hheap, lookup_app_l |].
  split; [intros i p; by apply reset_run_state_piece_at |].
  intros i p Hp. exists (PieceInfo.reset_run_state p).
  split; [by apply reset_run_state_piece_at | by repeat split].
Qed.

Lemma reset_run_state_clears_run_fields_witness :
  exists p',
    piece_at (DownloadInfo.reset_run_state run_heap sample_transfer).1
             (DownloadInfo.reset_run_state run_heap sample_transfer).2 1
    = Some p'
    /\ PieceInfo._downloaded p' = false
    /\ PieceInfo._sources p' = Some [peer_b]
    /\ PieceInfo.owners p' = []
    /\ PieceInfo.validating p' = false
    /\ PieceInfo._blocks_expected p' = Some [].
Proof.
  assert (Hwf : Forall (fun a => a < length run_heap)
                  (DownloadInfo._pieces sample_transfer))
    by (repeat constructor).
  pose proof (reset_run_state_clears_run_fields run_heap sample_transfer
                (PieceInfo.__init__ [] 0) Hwf) as H.
  simpl in H. destruct H as (_ & _ & _ & _ & _ & _ & H).
  exact (H 1 _ eq_refl).
Defined.

(** ** Distrust and bans *)

Lemma distrust_all_rates (d : DownloadInfo.t) (calls : list Peer.t) (h : string) :
  DownloadInfo._host_distrust_rates (distrust_all d calls) !! h
  = if decide (calls_for_host h calls = 0)
    then DownloadInfo._host_distrust_rates d !! h
    else Some (default 0%Z (DownloadInfo._host_distrust_rates d !! h)
               + Z.of_nat (calls_for_host h calls))%Z.
Proof.
  revert d. induction calls as [| c cs IH]; intros d; [done |].
  unfold distrust_all in *. simpl. rewrite IH. clear IH.
  unfold calls_for_host. rewrite filter_cons. simpl.
  destruct (decide (Peer.host c = h)) as [Heq | Hne].
  - subst h. rewrite lookup_insert_eq. simpl.
    destruct (decide (length (filter (fun q => Peer.host q = Peer.host c) cs) = 0))
      as [-> | _]; f_equal; lia.
  - by rewrite lookup_insert_ne.
Qed.

Lemma is_banned_count (d : DownloadInfo.t) (calls : list Peer.t) (p : Peer.t) :
  DownloadInfo._host_distrust_rates d = ∅ ->
  DownloadInfo.is_banned (distrust_all d calls) p
  = bool_decide (5 <= calls_for_host (Peer.host p) calls).
Proof.
  intros Hempty. unfold DownloadInfo.is_banned.
  rewrite distrust_all_rates, Hempty, lookup_empty. simpl.
  unfold DownloadInfo.DISTRUST_RATE_TO_BAN.
  destruct (decide (calls_for_host (Peer.host p) calls = 0)) as [-> | _].
  - by rewrite bool_decide_eq_false_2 by lia.
  - apply bool_decide_ext. lia.
Qed.

Lemma init_rates_empty heap ih pl hashes name files priv heap' d :
  DownloadInfo.__init__ heap ih pl hashes name files priv = inr (heap', d) ->
  DownloadInfo._host_distrust_rates d = ∅.
Proof.
  unfold DownloadInfo.__init__. intros H.
  destruct (_create_file_tree files 0 0 (Directory [])) as [| [files' tree]];
    [done |].
  destruct hashes; [done |].
  repeat case_bool_decide; try done. by injection H as _ <-.
Qed.

Lemma calls_for_host_replicate (p : Peer.t) (n : nat) :
  calls_for_host (Peer.host p) (replicate n p) = n.
Proof.
  unfold calls_for_host. induction n as [| n IH]; [done |].
  simpl. rewrite filter_cons. rewrite decide_True by done. simpl. by rewrite IH.
Qed.

(** C9: on a freshly constructed transfer, after any sequence of
    [increase_distrust] calls, [is_banned peer] holds exactly when at least
    five of the calls named a peer with the host of [peer], whatever the
    ports: five calls ban, four do not, and two peers with one host are
    banned together. *)
Theorem ban_after_five_distrusts
    heap ih pl hashes name files priv heap' (d : DownloadInfo.t)
    (calls : list Peer.t) (p q : Peer.t) :
  DownloadInfo.__init__ heap ih pl hashes name files priv = inr (heap', d) ->
  DownloadInfo.is_banned (distrust_all d calls) p
  = bool_decide (5 <= calls_for_host (Peer.host p) calls)
  /\ DownloadInfo.is_banned (distrust_all d (replicate 5 p)) p = true
  /\ DownloadInfo.is_banned (distrust_all d (replicate 4 p)) p = false
  /\ (Peer.host p = Peer.host q ->
      DownloadInfo.is_banned (distrust_all d calls) q
      = DownloadInfo.is_banned (distrust_all d calls) p)
  /\ (Peer.host p = Peer.host q ->
      DownloadInfo.is_banned (distrust_all d (replicate 5 q)) p = true).
Proof.
  intros Hinit. apply init_rates_empty in Hinit.
  split; [by apply is_banned_count |].
  split; [by rewrite is_banned_count, calls_for_host_replicate |].
  split; [by rewrite is_banned_count, calls_for_host_replicate |].
  split; intros Hpq.
  - by rewrite !is_banned_count, Hpq.
  - by rewrite is_banned_count, Hpq, calls_for_host_replicate.
Qed.

Lemma ban_after_five_distrusts_witness :
  DownloadInfo.is_banned
    (distrust_all sample_transfer [peer_a; peer_b; peer_a'; peer_a; peer_a'; peer_a])
    peer_a'
  = bool_decide
      (5 <= calls_for_host (Peer.host peer_a')
              [peer_a; peer_b; peer_a'; peer_a; peer_a'; peer_a]).
Proof.
  refine (proj1 (ban_after_five_distrusts [] [] 1024 sample_hashes "sample"
                   sample_files false sample_heap sample_transfer
                   [peer_a; peer_b; peer_a'; peer_a; peer_a'; peer_a]
                   peer_a' peer_a _)).
  vm_compute. reflexivity.
Defined.

(** ** Construction: piece layout and default selection *)

Lemma create_file_tree_cons item rest index offset tree :
  _create_file_tree (item :: rest) index offset tree
  = match (match FileInfo._path item with
           | [] => inr (FileLeaf index)
           | _ => tree_insert tree (FileInfo._path item) index
           end) with
    | inl e => inl e
    | inr tree' =>
        match _create_file_tree rest (S index)
                (offset + FileInfo._length item) tree' with
        | inl e => inl e
        | inr (files', tree'') =>
            inr (FileInfo.set_offset offset item :: files', tree'')
        end
    end.
Proof. destruct item as [? [| ? ?] ? ? ?]; reflexivity. Qed.

Lemma create_file_tree_files files index offset tree files' tree' :
  _create_file_tree files index offset tree = inr (files', tree') ->
  files' = assign_offsets offset files.
Proof.
  revert index offset tree files' tree'.
  induction files as [| item rest IH]; intros index offset tree files' tree' H.
  - simpl in H. by injection H as <- _.
  - rewrite create_file_tree_cons in H.
    destruct (match FileInfo._path item with
              | [] => inr (FileLeaf index)
              | _ => tree_insert tree (FileInfo._path item) index
              end) as [e | t]; [done |].
    destruct (_create_file_tree rest (S index)
                (offset + FileInfo._length item) t) as [| [fs tr]] eqn:Hr;
      [done |].
    injection H as <- _. simpl. f_equal. by eapply IH.
Qed.

Lemma sum_lengths_assign_offsets offset files :
  DownloadInfo.sum_lengths (assign_offsets offset files)
  = DownloadInfo.sum_lengths files.
Proof.
  revert offset. induction files as [| f fs IH]; intros offset; [done |].
  simpl. by rewrite IH.
Qed.

Lemma assign_offsets_length offset files :
  length (assign_offsets offset files) = length files.
Proof.
  revert offset. induction files as [| f fs IH]; intros offset; [done |].
  simpl. by rewrite IH.
Qed.

Lemma assign_offsets_selected offset files :
  Forall (fun f => FileInfo.selected f = true) files ->
  Forall (fun f => FileInfo.selected f = true) (assign_offsets offset files).
Proof.
  intros H. revert offset. induction H as [| f fs Hf _ IH]; intros offset;
    simpl; constructor; auto.
Qed.

(** What a successful [__init__] has checked and built. *)
Lemma init_inv heap ih pl hashes name files priv heap' d :
  DownloadInfo.__init__ heap ih pl hashes name files priv = inr (heap', d) ->
  exists tree,
    _create_file_tree files 0 0 (Directory []) = inr (assign_offsets 0 files, tree)
    /\ hashes <> []
    /\ pl <> 0%Z
    /\ ceil_div (DownloadInfo.sum_lengths files) pl = Z.of_nat (length hashes)
    /\ heap' = heap ++ DownloadInfo.initial_pieces pl hashes
                         (DownloadInfo.sum_lengths files)
    /\ DownloadInfo.files d = assign_offsets 0 files
    /\ DownloadInfo._file_tree d = tree
    /\ DownloadInfo.piece_length d = pl
    /\ DownloadInfo.downloaded_piece_count d = 0%Z
    /\ DownloadInfo._pieces d
       = seq (length heap)
           (length (DownloadInfo.initial_pieces pl hashes
                      (DownloadInfo.sum_lengths files))).
Proof.
  unfold DownloadInfo.__init__. intros H.
  destruct (_create_file_tree files 0 0 (Directory [])) as [| [files' tree]] eqn:Ht;
    [done |].
  pose proof (create_file_tree_files _ _ _ _ _ _ Ht) as ->.
  rewrite sum_lengths_assign_offsets in H.
  destruct hashes as [| h hs]; [done |].
  repeat case_bool_decide; try done.
  injection H as <- <-. exists tree. simpl.
  repeat split; try done. all: by apply dec_stable.
Qed.

Lemma initial_pieces_length pl hashes total :
  hashes <> [] ->
  length (DownloadInfo.initial_pieces pl hashes total) = length hashes.
Proof.
  intros Hne. unfold DownloadInfo.initial_pieces.
  rewrite length_app, length_map. simpl.
  destruct (exists_last Hne) as (init & x & ->).
  rewrite removelast_last, length_app. simpl. lia.
Qed.

Lemma initial_pieces_lookup pl hashes total i p :
  hashes <> [] ->
  DownloadInfo.initial_pieces pl hashes total !! i = Some p ->
  PieceInfo.selected p = true
  /\ PieceInfo._downloaded p = false
  /\ PieceInfo._length p
     = if decide (i = pred (length hashes))
       then (total - (Z.of_nat (length hashes) - 1) * pl)%Z
       else pl.
Proof.
  intros Hne. unfold DownloadInfo.initial_pieces.
  destruct (exists_last Hne) as (init & x & ->).
  rewrite removelast_last, length_app. simpl.
  replace (pred (length init + 1)) with (length init) by lia.
  intros Hp. destruct (decide (i < length init)) as [Hlt | Hge].
  - rewrite lookup_app_l in Hp by (by rewrite length_map).
    rewrite list_lookup_fmap in Hp.
    destruct (init !! i); simplify_eq/=.
    rewrite decide_False by lia. done.
  - rewrite lookup_app_r in Hp by (rewrite length_map; lia).
    rewrite length_map in Hp.
    destruct (i - length init) eqn:Hd; simplify_eq/=.
    rewrite decide_True by lia. done.
Qed.



Lemma piece_at_fresh heap new (d : DownloadInfo.t) i :
  DownloadInfo._pieces d = seq (length heap) (length new) ->
  piece_at (heap ++ new) d i = new !! i.
Proof.
  intros Hp. unfold piece_at. rewrite Hp.
  destruct (decide (i < length new)) as [Hlt | Hge].
  - rewrite lookup_seq_lt by done. simpl. rewrite lookup_app_r by lia.
    f_equal. lia.
  - rewrite lookup_seq_ge by lia. simpl. symmetry. apply lookup_ge_None. lia.
Qed.

Lemma pieces_wf_fresh heap new (d : DownloadInfo.t) :
  DownloadInfo._pieces d = seq (length heap) (length new) ->
  pieces_wf (heap ++ new) d.
Proof.
  intros Hp. unfold pieces_wf. rewrite Hp. split; [apply NoDup_seq |].
  apply Forall_forall. intros a Ha. apply elem_of_seq in Ha.
  rewrite length_app. lia.
Qed.

Lemma pieces_of_fresh heap new (d : DownloadInfo.t) :
  DownloadInfo._pieces d = seq (length heap) (length new) ->
  pieces_of (heap ++ new) d = new.
Proof.
  intros Hp. apply list_eq. intros i.
  rewrite pieces_of_lookup by (by apply pieces_wf_fresh).
  by apply piece_at_fresh.
Qed.




(** ** Progress *)

(** C8: [bytes_left] is
    [(piece_count - downloaded_piece_count) * piece_length] when the last
    piece is downloaded, and that amount less
    [piece_length - length of the last piece] when it is not. *)
Theorem bytes_left_formula (heap : list PieceInfo.t) (d : DownloadInfo.t)
    (last_piece : PieceInfo.t) :
  piece_at heap d (pred (length (DownloadInfo._pieces d))) = Some last_piece ->
  DownloadInfo.bytes_left heap d
  = inr (if PieceInfo._downloaded last_piece
         then ((DownloadInfo.piece_count d - DownloadInfo.downloaded_piece_count d)
               * DownloadInfo.piece_length d)%Z
         else ((DownloadInfo.piece_count d - DownloadInfo.downloaded_piece_count d)
               * DownloadInfo.piece_length d
               - (DownloadInfo.piece_length d - PieceInfo._length last_piece))%Z).
Proof.
  intros Hlast. unfold DownloadInfo.bytes_left, DownloadInfo.piece_count.
  assert (Hne : 0 < length (DownloadInfo._pieces d)).
  { unfold piece_at in Hlast.
    destruct (DownloadInfo._pieces d) as [| a l]; [done | simpl; lia]. }
  unfold py_index.
  rewrite (proj2 (Z.leb_le _ _)) by lia.
  rewrite (proj2 (Z.ltb_lt _ _)) by lia.
  replace (Z.to_nat (Z.of_nat (length (DownloadInfo._pieces d)) - 1))
    with (pred (length (DownloadInfo._pieces d))) by lia.
  unfold piece_at in Hlast. rewrite Hlast.
  destruct (PieceInfo._downloaded last_piece); simpl; f_equal; lia.
Qed.

Lemma bytes_left_formula_witness :
  DownloadInfo.bytes_left sample_heap sample_transfer = inr 3000%Z
  /\ DownloadInfo.bytes_left run_heap sample_transfer = inr 3000%Z.
Proof.
  split.
  - exact (bytes_left_formula sample_heap sample_transfer _ eq_refl).
  - exact (bytes_left_formula run_heap sample_transfer _ eq_refl).
Defined.

Lemma mark_downloaded_blocks_selected futures p source request :
  PieceInfo.selected
    (outcome_state (PieceInfo.mark_downloaded_blocks futures p source request)).2
  = PieceInfo.selected p.
Proof.
  unfold PieceInfo.mark_downloaded_blocks.
  repeat case_match; reflexivity.
Qed.

(** C10: right after [DownloadInfo.__init__], on files as [FileInfo.__init__]
    builds them, every file and every piece is selected; and no operation
    of the model other than [select_files] changes a [selected] flag:
    neither the per-run reset, nor distrust, nor any method of a piece. *)
Theorem init_selects_everything heap ih pl hashes name
    (specs : list (Z * list string * option string)) priv heap' d :
  DownloadInfo.__init__ heap ih pl hashes name
    (map (fun s => FileInfo.__init__ s.1.1 s.1.2 s.2) specs) priv
  = inr (heap', d) ->
  length (DownloadInfo.files d) = length specs
  /\ Forall (fun f => FileInfo.selected f = true) (DownloadInfo.files d)
  /\ length (DownloadInfo._pieces d) = length hashes
  /\ (forall i, i < length hashes ->
        exists p, piece_at heap' d i = Some p /\ PieceInfo.selected p = true)
  /\ (forall h0 d0,
        DownloadInfo.files (DownloadInfo.reset_run_state h0 d0).2
        = DownloadInfo.files d0)
  /\ (forall h0 d0 i p,
        Forall (fun a => a < length h0) (DownloadInfo._pieces d0) ->
        piece_at h0 d0 i = Some p ->
        exists p',
          piece_at (DownloadInfo.reset_run_state h0 d0).1
                   (DownloadInfo.reset_run_state h0 d0).2 i = Some p'
          /\ PieceInfo.selected p' = PieceInfo.selected p)
  /\ (forall d0 peer,
        DownloadInfo.files (DownloadInfo.increase_distrust d0 peer)
        = DownloadInfo.files d0
        /\ DownloadInfo._pieces (DownloadInfo.increase_distrust d0 peer)
           = DownloadInfo._pieces d0)
  /\ (forall p,
        PieceInfo.selected (PieceInfo.reset_content p) = PieceInfo.selected p
        /\ PieceInfo.selected (PieceInfo.reset_run_state p) = PieceInfo.selected p
        /\ PieceInfo.selected (outcome_state (PieceInfo.mark_as_downloaded p))
           = PieceInfo.selected p)
  /\ (forall futures p source request,
        PieceInfo.selected
          (outcome_state
             (PieceInfo.mark_downloaded_blocks futures p source request)).2
        = PieceInfo.selected p).
Proof.
  intros Hinit.
  destruct (init_inv _ _ _ _ _ _ _ _ _ Hinit)
    as (tree & _ & Hne & Hpl & Hceil & -> & Hfiles & _ & _ & _ & Hpieces).
  split; [by rewrite Hfiles, assign_offsets_length, length_map |].
  split.
  { rewrite Hfiles. apply assign_offsets_selected.
    apply Forall_forall. intros f Hf. apply list_elem_of_fmap in Hf.
    by destruct Hf as (s & -> & _). }
  split; [by rewrite Hpieces, length_seq, initial_pieces_length |].
  split.
  { intros i Hi. rewrite piece_at_fresh by done.
    rewrite <- (initial_pieces_length pl hashes
                  (DownloadInfo.sum_lengths
                     (map (fun s => FileInfo.__init__ s.1.1 s.1.2 s.2) specs)))
      in Hi by done.
    destruct (lookup_lt_is_Some_2 _ _ Hi) as [p Hp]. exists p.
    split; [done |]. by apply initial_pieces_lookup in Hp as (? & _). }
  split; [done |].
  split.
  { intros h0 d0 i p Hwf Hp. exists (PieceInfo.reset_run_state p).
    split; [by apply reset_run_state_piece_at | done]. }
  split; [done |].
  split.
  { intros p. repeat split. unfold PieceInfo.mark_as_downloaded.
    by destruct (PieceInfo._downloaded p). }
  apply mark_downloaded_blocks_selected.
Qed.

Lemma init_selects_everything_witness :
  Forall (fun f => FileInfo.selected f = true) (DownloadInfo.files sample_transfer)
  /\ forall i, i < 3 ->
       exists p, piece_at sample_heap sample_transfer i = Some p
                 /\ PieceInfo.selected p = true.
Proof.
  pose proof (init_selects_everything [] [] 1024 sample_hashes "sample"
                [(1500%Z, ["a"; "x"], None); (1000%Z, ["a"; "y"], None);
                 (500%Z, ["b"], None)]
                false sample_heap sample_transfer eq_refl)
    as (_ & H1 & _ & H2 & _).
  split; [exact H1 | exact H2].
Defined.

(** ** Marking downloaded blocks *)

Lemma slice_bound_nonneg n i :
  (0 <= i)%Z -> slice_bound n i = Z.to_nat i `min` n.
Proof.
  intros Hi. unfold slice_bound.
  rewrite (proj2 (Z.ltb_ge _ _)) by lia. lia.
Qed.

Lemma slice_assign_length arr b e v :
  length (slice_assign arr b e v) = length arr.
Proof. unfold slice_assign. apply length_imap. Qed.

Lemma slice_assign_lookup arr b e v (i : nat) :
  (0 <= b)%Z -> (0 <= e)%Z ->
  slice_assign arr b e v !! i
  = (fun x => if bool_decide (b <= Z.of_nat i < e)%Z then v else x) <$> arr !! i.
Proof.
  intros Hb He. unfold slice_assign. rewrite list_lookup_imap.
  destruct (arr !! i) as [x |] eqn:Hx; [| done]. simpl.
  apply lookup_lt_Some in Hx. rewrite !slice_bound_nonneg by done.
  f_equal.
  rewrite (bool_decide_ext
             (Z.to_nat b `min` length arr <= i < Z.to_nat e `min` length arr)
             (b <= Z.of_nat i < e)%Z) by lia.
  done.
Qed.



Lemma is_covered_insert futures arr r fut fut' x :
  futures !! r = Some fut ->
  BlockRequestFuture.request fut' = BlockRequestFuture.request fut ->
  is_covered (<[r := fut']> futures) arr x = is_covered futures arr x.
Proof.
  intros Hr Hreq. unfold is_covered.
  destruct (decide (r = x)) as [<- | Hne].
  - rewrite list_lookup_insert_eq by (by eapply lookup_lt_Some).
    rewrite Hr. unfold PieceInfo.query_begin, PieceInfo.query_end,
      BlockRequestFuture.block_begin, BlockRequestFuture.block_length.
    by rewrite Hreq.
  - by rewrite list_lookup_insert_ne.
Qed.

Lemma scan_expected_spec arr source expected futures acc :
  NoDup expected ->
  (forall r, r ∈ expected ->
     exists fut, futures !! r = Some fut
                 /\ BlockRequestFuture._state fut = PENDING) ->
  exists futures',
    PieceInfo.scan_expected arr source expected futures acc
    = Returned (futures',
                acc ++ filter (fun r => is_covered futures arr r = true) expected)
    /\ forall r,
         futures' !! r
         = if bool_decide (r ∈ expected) && is_covered futures arr r
           then resolved source <$> futures !! r
           else futures !! r.
Proof.
  revert futures acc. induction expected as [| r rest IH];
    intros futures acc Hnd Hpend.
  - exists futures. simpl. split; [by rewrite app_nil_r |]. done.
  - apply NoDup_cons in Hnd as [Hr Hnd].
    destruct (Hpend r) as (fut & Hfut & Hstate); [left |].
    simpl. rewrite Hfut. rewrite filter_cons.
    assert (Hcov : is_covered futures arr r
                   = bits_all (py_slice arr (PieceInfo.query_begin fut)
                                 (PieceInfo.query_end fut)))
      by (unfold is_covered; by rewrite Hfut).
    rewrite <- Hcov.
    destruct (is_covered futures arr r) eqn:Hc.
    + unfold BlockRequestFuture.set_result. rewrite Hstate.
      fold (resolved source fut).
      destruct (IH (<[r := resolved source fut]> futures) (acc ++ [r]) Hnd)
        as (futures' & Hscan & Hlook).
      { intros r' Hr'. destruct (Hpend r') as (f' & Hf' & Hs'); [by right |].
        exists f'. split; [| done].
        rewrite list_lookup_insert_ne; [done |]. by intros ->. }
      exists futures'. split.
      * rewrite Hscan. rewrite decide_True by done.
        rewrite <- app_assoc. simpl. do 4 f_equal.
        apply list_filter_iff. intros x.
        by rewrite (is_covered_insert futures arr r fut).
      * intros x. rewrite Hlook.
        rewrite (is_covered_insert futures arr r fut) by done.
        destruct (decide (x = r)) as [-> | Hne].
        -- rewrite Hc. rewrite (bool_decide_eq_false_2 (r ∈ rest)) by done.
           rewrite (bool_decide_eq_true_2 (r ∈ r :: rest)) by left.
           simpl. rewrite Hfut.
           rewrite list_lookup_insert_eq by (by eapply lookup_lt_Some). done.
        -- rewrite list_lookup_insert_ne by done.
           rewrite (bool_decide_ext (x ∈ r :: rest) (x ∈ rest)); [done |].
           rewrite elem_of_cons. split; [by intros [? | ?] | by right].
    + destruct (IH futures acc Hnd) as (futures' & Hscan & Hlook).
      { intros r' Hr'. apply Hpend. by right. }
      exists futures'. split.
      * rewrite Hscan. by rewrite decide_False by done.
      * intros x. rewrite Hlook.
        destruct (decide (x = r)) as [-> | Hne].
        -- rewrite Hc, !andb_false_r. done.
        -- rewrite (bool_decide_ext (x ∈ r :: rest) (x ∈ rest)); [done |].
           rewrite elem_of_cons. split; [by intros [? | ?] | by right].
Qed.

Lemma foldl_future_set_remove futures (s ds : list nat) x :
  x ∈ foldl (future_set_remove futures) s ds <-> x ∈ s /\ x ∉ ds.
Proof.
  revert s. induction ds as [| d ds IH]; intros s; simpl.
  - rewrite elem_of_nil. tauto.
  - rewrite IH. unfold future_set_remove. rewrite list_elem_of_filter. simpl.
    rewrite bool_decide_eq_false, elem_of_cons. tauto.
Qed.



Lemma ceil_div_nonneg (a b : Z) : (0 <= a)%Z -> (0 < b)%Z -> (0 <= ceil_div a b)%Z.
Proof.
  intros Ha Hb. unfold ceil_div.
  assert (Z.div (Z.opp a) b <= 0)%Z; [| lia].
  apply Z.div_le_upper_bound; lia.
Qed.



(** ** File selection *)

Lemma omap_ext_fun {A B} (f g : A -> option B) (l : list A) :
  (forall x, f x = g x) -> omap f l = omap g l.
Proof.
  intros H. induction l as [| x l IH]; [done |].
  simpl. rewrite (H x). destruct (g x); [f_equal |]; exact IH.
Qed.

Lemma node_segment_alter v n files m :
  node_segment (alter (FileInfo.set_selected v) n files) m
  = node_segment files m.
Proof.
  unfold node_segment. destruct (decide (n = m)) as [-> | Hne].
  - rewrite list_lookup_alter_eq. by destruct (files !! m).
  - by rewrite list_lookup_alter_ne.
Qed.

Lemma insert_as_alter {A} (g : A -> A) (l : list A) n x :
  l !! n = Some x -> <[n := g x]> l = alter g n l.
Proof.
  intros Hx. apply list_eq. intros i. destruct (decide (n = i)) as [<- | Hne].
  - rewrite list_lookup_insert_eq by (by eapply lookup_lt_Some).
    by rewrite list_lookup_alter_eq, Hx.
  - by rewrite list_lookup_insert_ne, list_lookup_alter_ne.
Qed.

Lemma alter_absent {A} (g : A -> A) (l : list A) n :
  l !! n = None -> alter g n l = l.
Proof.
  intros Hn. apply list_eq. intros i. destruct (decide (n = i)) as [<- | Hne].
  - by rewrite list_lookup_alter_eq, Hn.
  - by rewrite list_lookup_alter_ne.
Qed.

Lemma files_wf_alter v n files :
  files_wf files -> files_wf (alter (FileInfo.set_selected v) n files).
Proof.
  unfold files_wf. rewrite !Forall_lookup. intros H i f Hf.
  destruct (decide (n = i)) as [<- | Hne].
  - rewrite list_lookup_alter_eq in Hf.
    destruct (files !! n) as [f0 |] eqn:Hf0; [| done].
    simpl in Hf. injection Hf as <-. exact (H n f0 Hf0).
  - rewrite list_lookup_alter_ne in Hf by done. by eapply H.
Qed.

Lemma mark_nodes_returns include_paths nodes files segments :
  files_wf files ->
  mark_nodes include_paths nodes files segments
  = Returned (mark_files include_paths nodes files,
              segments ++ omap (node_segment files) nodes).
Proof.
  revert files segments. induction nodes as [| n rest IH];
    intros files segments Hwf; simpl.
  - by rewrite app_nil_r.
  - unfold node_segment at 1. destruct (files !! n) as [node |] eqn:Hn.
    + destruct (proj1 (Forall_lookup _ _) Hwf n node Hn) as (o & Ho & _).
      rewrite Ho. rewrite (insert_as_alter (FileInfo.set_selected include_paths))
        by done.
      rewrite IH by (by apply files_wf_alter).
      unfold mark_files. simpl. rewrite <- app_assoc. simpl.
      do 4 f_equal. apply omap_ext_fun. intros m. apply node_segment_alter.
    + rewrite IH by done. unfold mark_files. simpl.
      by rewrite alter_absent.
Qed.

Lemma mark_files_wf v nodes files :
  files_wf files -> files_wf (mark_files v nodes files).
Proof.
  revert files. induction nodes as [| n rest IH]; intros files H; [done |].
  unfold mark_files. simpl. apply IH. by apply files_wf_alter.
Qed.

Lemma node_segment_mark_files v nodes files m :
  node_segment (mark_files v nodes files) m = node_segment files m.
Proof.
  revert files. induction nodes as [| n rest IH]; intros files; [done |].
  unfold mark_files. simpl. fold (mark_files v rest
    (alter (FileInfo.set_selected v) n files)).
  by rewrite IH, node_segment_alter.
Qed.

Lemma mark_files_app v l1 l2 files :
  mark_files v (l1 ++ l2) files = mark_files v l2 (mark_files v l1 files).
Proof. unfold mark_files. by rewrite foldl_app. Qed.

(** A call of the loop over [paths] returns only if every path resolves. *)
Lemma select_paths_resolves include_paths tree paths files segments s :
  select_paths include_paths tree paths files segments = Returned s ->
  Forall (fun path => exists node, _get_file_tree_node tree path = inr node) paths.
Proof.
  revert files segments. induction paths as [| path rest IH];
    intros files segments H; [constructor |].
  simpl in H. destruct (_get_file_tree_node tree path) as [e | node] eqn:Hg;
    [done |].
  destruct (mark_nodes include_paths (_traverse_nodes node) files segments)
    as [[files' segments'] | e s'] eqn:Hm; [| done].
  constructor; [by exists node | by eapply IH].
Qed.

Lemma select_paths_returns include_paths tree paths files segments :
  files_wf files ->
  Forall (fun path => exists node, _get_file_tree_node tree path = inr node) paths ->
  select_paths include_paths tree paths files segments
  = Returned (mark_files include_paths (reached_files tree paths) files,
              segments ++ omap (node_segment files) (reached_files tree paths)).
Proof.
  intros Hwf Hres. revert files segments Hwf.
  induction Hres as [| path rest [node Hnode] _ IH]; intros files segments Hwf.
  - simpl. by rewrite app_nil_r.
  - simpl. rewrite Hnode. rewrite mark_nodes_returns by done.
    rewrite IH by (by apply mark_files_wf).
    rewrite mark_files_app, omap_app, app_assoc. do 3 f_equal.
    apply omap_ext_fun. intros m. apply node_segment_mark_files.
Qed.


Lemma set_all_pieces_lookup v (pieces : list nat) (heap : list PieceInfo.t) a :
  DownloadInfo.set_all_pieces v pieces heap !! a
  = if bool_decide (a ∈ pieces)
    then PieceInfo.set_selected v <$> heap !! a
    else heap !! a.
Proof.
  unfold DownloadInfo.set_all_pieces. revert heap.
  induction pieces as [| x l IH]; intros heap; [done |].
  simpl. rewrite IH. destruct (decide (a = x)) as [-> | Hne].
  - rewrite (bool_decide_eq_true_2 (x ∈ x :: l)) by left.
    rewrite list_lookup_alter_eq.
    destruct (bool_decide (x ∈ l)); [| done].
    destruct (heap !! x); done.
  - rewrite list_lookup_alter_ne by done.
    rewrite (bool_decide_ext (a ∈ x :: l) (a ∈ l)); [done |].
    rewrite elem_of_cons. split; [by intros [? | ?] | by right].
Qed.

Lemma set_all_pieces_length v (pieces : list nat) (heap : list PieceInfo.t) :
  length (DownloadInfo.set_all_pieces v pieces heap) = length heap.
Proof.
  unfold DownloadInfo.set_all_pieces. revert heap.
  induction pieces as [| x l IH]; intros heap; [done |].
  simpl. by rewrite IH, length_alter.
Qed.

Lemma py_index_nonneg n i k :
  (0 <= i)%Z -> py_index n i = Some k -> k = Z.to_nat i /\ k < n.
Proof.
  intros Hi. unfold py_index. rewrite (proj2 (Z.leb_le _ _)) by done.
  destruct (i <? Z.of_nat n)%Z eqn:Hlt; [| done].
  apply Z.ltb_lt in Hlt. intros [= <-]. lia.
Qed.

(** The flags after [for index in indices: pieces[index].selected = v],
    when no index is negative. *)
Lemma mark_indices_spec v (pieces : list nat) indices heap heap' :
  NoDup pieces ->
  Forall (fun i => 0 <= i)%Z indices ->
  mark_indices v pieces indices heap = Returned heap' ->
  length heap' = length heap
  /\ forall k a, pieces !! k = Some a ->
       heap' !! a
       = (fun p => if bool_decide (Z.of_nat k ∈ indices)
                   then PieceInfo.set_selected v p else p) <$> heap !! a.
Proof.
  intros Hnd Hpos. revert heap.
  induction Hpos as [| i rest Hi _ IH]; intros heap H; simpl in H.
  - injection H as <-. split; [done |]. intros k a _.
    by destruct (heap !! a).
  - unfold set_piece_selected in H.
    destruct (py_index (length pieces) i) as [k0 |] eqn:Hk0; [| done].
    destruct (pieces !! k0) as [a0 |] eqn:Ha0; [| done].
    apply py_index_nonneg in Hk0 as [-> _]; [| done].
    destruct (IH _ H) as [Hlen Hlook]. split; [by rewrite Hlen, length_alter |].
    intros k a Ha. rewrite (Hlook k a Ha).
    destruct (decide (k = Z.to_nat i)) as [-> | Hne].
    + assert (a = a0) as -> by congruence.
      rewrite list_lookup_alter_eq.
      rewrite (bool_decide_eq_true_2 (_ ∈ i :: rest))
        by (apply elem_of_cons; left; lia).
      destruct (heap !! a0); [| done]. simpl.
      by destruct (bool_decide _).
    + assert (a <> a0).
      { intros ->. apply Hne. by eapply NoDup_lookup. }
      rewrite list_lookup_alter_ne by done.
      rewrite (bool_decide_ext (Z.of_nat k ∈ i :: rest) (Z.of_nat k ∈ rest));
        [done |].
      rewrite elem_of_cons. split; [intros [? | ?]; [lia | done] | by right].
Qed.

Lemma elem_of_py_range (b e i : Z) :
  i ∈ py_range b e <-> (b <= i < e)%Z.
Proof.
  unfold py_range. rewrite list_elem_of_fmap. split.
  - intros (k & -> & Hk). apply elem_of_seq in Hk. lia.
  - intros Hi. exists (Z.to_nat (i - b)). split; [lia |].
    apply elem_of_seq. lia.
Qed.

(** The flags after the last loop of [select_files], when it returns. *)
Lemma mark_segments_spec include_paths pl (pieces : list nat) segments heap heap' :
  NoDup pieces ->
  (0 < pl)%Z ->
  Forall (fun s => 0 <= s.1)%Z segments ->
  mark_segments include_paths pl pieces segments heap = Returned heap' ->
  length heap' = length heap
  /\ forall k a, pieces !! k = Some a ->
       heap' !! a
       = (fun p => if piece_marked include_paths pl segments k
                   then PieceInfo.set_selected include_paths p else p)
           <$> heap !! a.
Proof.
  intros Hnd Hpl Hpos. revert heap.
  induction Hpos as [| seg rest Hseg _ IH]; intros heap H; simpl in H.
  - injection H as <-. split; [done |]. intros k a _. by destruct (heap !! a).
  - rewrite bool_decide_eq_false_2 in H by lia.
    destruct (piece_range include_paths pl seg) as [pb pe] eqn:Hrange.
    destruct (mark_indices include_paths pieces (py_range pb pe) heap)
      as [heap1 | e h] eqn:Hmi; [| done].
    assert (Hpb : (0 <= pb)%Z).
    { destruct seg as [o l]. unfold piece_range in Hrange. simpl in Hseg.
      destruct include_paths; injection Hrange as <- _.
      - apply Z.div_pos; lia.
      - unfold ceil_div. assert (Z.div (Z.opp o) pl <= 0)%Z; [| lia].
        apply Z.div_le_upper_bound; lia. }
    apply mark_indices_spec in Hmi as [Hlen1 Hlook1]; [| done |].
    2: { apply Forall_forall. intros i Hi. apply elem_of_py_range in Hi. lia. }
    destruct (IH _ H) as [Hlen Hlook]. split; [congruence |].
    intros k a Ha. rewrite (Hlook k a Ha), (Hlook1 k a Ha).
    unfold piece_marked. simpl. rewrite Hrange.
    fold (piece_marked include_paths pl rest k).
    unfold in_piece_range. simpl.
    rewrite (bool_decide_ext (Z.of_nat k ∈ py_range pb pe)
               (pb <= Z.of_nat k < pe)%Z) by apply elem_of_py_range.
    destruct (heap !! a); [| done]. simpl.
    destruct (bool_decide _), (piece_marked _ _ _ _); done.
Qed.

(** *** Sorting of segments *)

#[local] Instance segment_le_total : Total segment_le.
Proof. intros [a1 a2] [b1 b2]. unfold segment_le. simpl. lia. Qed.

#[local] Instance segment_le_trans : Transitive segment_le.
Proof. intros [a1 a2] [b1 b2] [c1 c2]. unfold segment_le. simpl. lia. Qed.

#[local] Instance segment_le_antisymm : AntiSymm (=) segment_le.
Proof.
  intros [a1 a2] [b1 b2]. unfold segment_le. simpl. intros H1 H2.
  f_equal; lia.
Qed.

(** [segments.sort()] yields the sorted rearrangement of the list, and
    there is only one: the result of [merge_sort] is it. *)
Lemma sorted_segments_unique (segments sorted : list (Z * Z)) :
  Sorted segment_le sorted -> sorted ≡ₚ segments ->
  sorted = merge_sort segment_le segments.
Proof.
  intros Hs Hp. apply (Sorted_unique segment_le); [done | |].
  - apply Sorted_merge_sort, _.
  - by rewrite merge_sort_Permutation.
Qed.

(** *** Merging of segments *)

Lemma unite_step_nil cur : unite_step [] cur = [cur].
Proof. reflexivity. Qed.

Lemma unite_step_snoc init x cur :
  unite_step (init ++ [x]) cur
  = if bool_decide (x.1 + x.2 = cur.1)%Z
    then init ++ [(x.1, (x.2 + cur.2)%Z)]
    else init ++ [x; cur].
Proof.
  unfold unite_step. rewrite last_snoc. case_bool_decide.
  - rewrite length_app. simpl.
    replace (pred (length init + 1)) with (length init + 0) by lia.
    by rewrite insert_app_r.
  - by rewrite <- app_assoc.
Qed.

Lemma list_snoc_cases {A} (l : list A) : l = [] \/ exists init x, l = init ++ [x].
Proof.
  destruct (last l) as [x |] eqn:Hl.
  - right. apply last_Some in Hl as [init ->]. eauto.
  - left. by apply last_None.
Qed.






Lemma unite_offsets_from acc segments :
  Forall (fun u => 0 <= u.1)%Z acc ->
  Forall (fun s => 0 <= s.1)%Z segments ->
  Forall (fun u => 0 <= u.1)%Z (foldl unite_step acc segments).
Proof.
  intros Hacc Hseg. revert acc Hacc.
  induction Hseg as [| cur rest Hcur _ IH]; intros acc Hacc; simpl; [done |].
  apply IH. destruct (list_snoc_cases acc) as [-> | (init & y & ->)].
  - rewrite unite_step_nil. by repeat constructor.
  - rewrite unite_step_snoc. apply Forall_app in Hacc as [Hinit Hy].
    rewrite Forall_singleton in Hy.
    case_bool_decide; apply Forall_app; (split; [done |]); by repeat constructor.
Qed.

Lemma unite_offsets segments :
  Forall (fun s => 0 <= s.1)%Z segments ->
  Forall (fun u => 0 <= u.1)%Z (unite segments).
Proof. intros H. apply unite_offsets_from; [constructor | done]. Qed.

(** *** Rounding of a segment to pieces *)








(** *** What a returning call of [select_files] has done *)

Lemma node_segment_map v files m :
  node_segment (map (FileInfo.set_selected v) files) m = node_segment files m.
Proof.
  unfold node_segment. rewrite list_lookup_fmap. by destruct (files !! m).
Qed.

Lemma files_wf_map v files :
  files_wf files -> files_wf (map (FileInfo.set_selected v) files).
Proof.
  unfold files_wf. intros H. apply Forall_fmap. eapply Forall_impl; [exact H |].
  by intros f.
Qed.

Lemma selected_segments_nonneg d paths :
  files_wf (DownloadInfo.files d) ->
  Forall (fun s => 0 <= s.1 /\ 0 <= s.2)%Z (selected_segments d paths).
Proof.
  intros Hwf. apply Forall_forall. intros s Hs. unfold selected_segments in Hs.
  apply list_elem_of_omap in Hs as (n & _ & Hn). unfold node_segment in Hn.
  destruct (DownloadInfo.files d !! n) as [f |] eqn:Hf; [| done].
  destruct (proj1 (Forall_lookup _ _) Hwf n f Hf) as (o & Ho & ? & ?).
  rewrite Ho in Hn. by injection Hn as <-.
Qed.

Lemma select_paths_of_transfer include_paths d paths v :
  files_wf (DownloadInfo.files d) ->
  Forall (fun path =>
            exists node,
              _get_file_tree_node (DownloadInfo._file_tree d) path = inr node)
    paths ->
  select_paths include_paths (DownloadInfo._file_tree d) paths
    (map (FileInfo.set_selected v) (DownloadInfo.files d)) []
  = Returned
      (mark_files include_paths
         (reached_files (DownloadInfo._file_tree d) paths)
         (map (FileInfo.set_selected v) (DownloadInfo.files d)),
       selected_segments d paths).
Proof.
  intros Hwf Hres. rewrite select_paths_returns; [| by apply files_wf_map | done].
  simpl. do 2 f_equal. apply omap_ext_fun. intros m. apply node_segment_map.
Qed.

Lemma united_segments_offsets d paths :
  files_wf (DownloadInfo.files d) ->
  Forall (fun u => 0 <= u.1)%Z (united_segments_of d paths).
Proof.
  intros Hwf. apply unite_offsets. rewrite merge_sort_Permutation.
  eapply Forall_impl; [by apply selected_segments_nonneg |]. by intros s [? _].
Qed.

Lemma select_files_returned heap d paths mode heap' d' :
  pieces_wf heap d ->
  files_wf (DownloadInfo.files d) ->
  (0 < DownloadInfo.piece_length d)%Z ->
  DownloadInfo.select_files heap d paths mode = Returned (heap', d') ->
  let include_paths := bool_decide (mode = "whitelist") in
  valid_mode mode = true
  /\ Forall (fun path =>
               exists node,
                 _get_file_tree_node (DownloadInfo._file_tree d) path = inr node)
       paths
  /\ d' = DownloadInfo.with_files d
            (mark_files include_paths
               (reached_files (DownloadInfo._file_tree d) paths)
               (map (FileInfo.set_selected (negb include_paths))
                  (DownloadInfo.files d)))
  /\ length heap' = length heap
  /\ forall k p, piece_at heap d k = Some p ->
       piece_at heap' d' k
       = Some (PieceInfo.set_selected
                 (if piece_marked include_paths (DownloadInfo.piece_length d)
                       (united_segments_of d paths) k
                  then include_paths else negb include_paths) p).
Proof.
  intros [Hnd Hvalid] Hwf Hpl H include_paths.
  unfold DownloadInfo.select_files in H. fold (valid_mode mode) in H.
  destruct (valid_mode mode) eqn:Hmode; [| done]. simpl in H.
  destruct (DownloadInfo.is_single_file d); [done |].
  fold include_paths in H.
  destruct (select_paths include_paths (DownloadInfo._file_tree d) paths
              (map (FileInfo.set_selected (negb include_paths))
                 (DownloadInfo.files d)) [])
    as [[files2 segments] | e [files2 segments]] eqn:Hsel; [| done].
  pose proof (select_paths_resolves _ _ _ _ _ _ Hsel) as Hres.
  rewrite select_paths_of_transfer in Hsel by done.
  injection Hsel as <- <-.
  destruct (_ || _); [done |].
  fold (united_segments_of d paths) in H. unfold DownloadInfo.pieces in H.
  destruct (mark_segments include_paths (DownloadInfo.piece_length d)
              (DownloadInfo._pieces d) (united_segments_of d paths)
              (DownloadInfo.set_all_pieces (negb include_paths)
                 (DownloadInfo._pieces d) heap))
    as [heap2 | e heap2] eqn:Hms; [| done].
  injection H as <- <-.
  apply mark_segments_spec in Hms as [Hlen Hlook];
    [| done | done | by apply united_segments_offsets].
  split; [done |]. split; [done |]. split; [done |].
  split; [by rewrite Hlen, set_all_pieces_length |].
  intros k p Hp. unfold piece_at in *. simpl.
  destruct (DownloadInfo._pieces d !! k) as [a |] eqn:Ha; [| done].
  simpl in *. rewrite (Hlook k a Ha), set_all_pieces_lookup.
  rewrite bool_decide_eq_true_2 by (by eapply list_elem_of_lookup_2).
  rewrite Hp. simpl. by destruct (piece_marked _ _ _ _).
Qed.

Lemma mark_files_lookup v nodes files n :
  mark_files v nodes files !! n
  = (fun f => if bool_decide (n ∈ nodes) then FileInfo.set_selected v f else f)
      <$> files !! n.
Proof.
  unfold mark_files. revert files.
  induction nodes as [| x l IH]; intros files; simpl.
  - by destruct (files !! n).
  - rewrite IH. destruct (decide (n = x)) as [-> | Hne].
    + rewrite (bool_decide_eq_true_2 (x ∈ x :: l)) by left.
      rewrite list_lookup_alter_eq. destruct (files !! x); [| done]. simpl.
      by destruct (bool_decide (x ∈ l)).
    + rewrite list_lookup_alter_ne by done.
      rewrite (bool_decide_ext (n ∈ x :: l) (n ∈ l)); [done |].
      rewrite elem_of_cons. split; [by intros [? | ?] | by right].
Qed.

(** A returning call leaves a state on which [select_files] can be called
    again: same pieces, same tree, same offsets and lengths. *)
Lemma select_files_preserves heap d paths mode heap' d' :
  pieces_wf heap d ->
  files_wf (DownloadInfo.files d) ->
  (0 < DownloadInfo.piece_length d)%Z ->
  DownloadInfo.select_files heap d paths mode = Returned (heap', d') ->
  pieces_wf heap' d'
  /\ files_wf (DownloadInfo.files d')
  /\ DownloadInfo.piece_length d' = DownloadInfo.piece_length d
  /\ DownloadInfo._file_tree d' = DownloadInfo._file_tree d
  /\ DownloadInfo._pieces d' = DownloadInfo._pieces d
  /\ forall n, node_segment (DownloadInfo.files d') n
               = node_segment (DownloadInfo.files d) n.
Proof.
  intros Hp Hf Hpl H.
  destruct (select_files_returned _ _ _ _ _ _ Hp Hf Hpl H)
    as (_ & _ & -> & Hlen & _).
  destruct Hp as [Hnd Hvalid]. simpl.
  split; [split; [done | by rewrite Hlen] |].
  split; [by apply mark_files_wf, files_wf_map |].
  split; [done |]. split; [done |]. split; [done |].
  intros n. by rewrite node_segment_mark_files, node_segment_map.
Qed.




(** C2, as stated, fails: an empty whitelist on the sample transfer is
    rejected, but by then every piece and every file has been
    unselected. *)
Lemma select_files_rejects_after_mutating :
  exists heap1 d1,
    DownloadInfo.select_files sample_heap sample_transfer [] "whitelist"
    = Raised ValueError (heap1, d1)
    /\ PieceInfo.selected <$> piece_at sample_heap sample_transfer 0 = Some true
    /\ PieceInfo.selected <$> piece_at heap1 d1 0 = Some false
    /\ FileInfo.selected <$> DownloadInfo.files sample_transfer !! 0 = Some true
    /\ FileInfo.selected <$> DownloadInfo.files d1 !! 0 = Some false.
Proof. do 2 eexists. split; [vm_compute; reflexivity | by repeat split]. Qed.

(** A blacklist that names the root twice excludes every file and is not
    rejected: the test compares the number of collected segments with the
    number of files. *)
Lemma select_files_accepts_total_blacklist :
  exists heap1 d1,
    DownloadInfo.select_files sample_heap sample_transfer [[]; []] "blacklist"
    = Returned (heap1, d1)
    /\ Forall (fun f => FileInfo.selected f = false) (DownloadInfo.files d1).
Proof.
  do 2 eexists. split; [vm_compute; reflexivity | by repeat constructor].
Qed.

(** The three rejections of [select_files], the last one in terms of the
    test the code makes on the collected segments. *)
Lemma select_files_raises
    (heap : list PieceInfo.t) (d : DownloadInfo.t)
    (paths : list (list string)) (mode : string) :
  let include_paths := bool_decide (mode = "whitelist") in
  let reached := reached_files (DownloadInfo._file_tree d) paths in
  (valid_mode mode = false ->
   DownloadInfo.select_files heap d paths mode = Raised ValueError (heap, d))
  /\ (valid_mode mode = true -> DownloadInfo.is_single_file d = true ->
      DownloadInfo.select_files heap d paths mode = Raised ValueError (heap, d))
  /\ (valid_mode mode = true -> DownloadInfo.is_single_file d = false ->
      files_wf (DownloadInfo.files d) ->
      Forall (fun path =>
                exists node,
                  _get_file_tree_node (DownloadInfo._file_tree d) path
                  = inr node) paths ->
      (include_paths = true /\ selected_segments d paths = []
       \/ include_paths = false
          /\ length (selected_segments d paths)
             = length (DownloadInfo.files d)) ->
      exists heap1 d1,
        DownloadInfo.select_files heap d paths mode
        = Raised ValueError (heap1, d1)
        /\ DownloadInfo._pieces d1 = DownloadInfo._pieces d
        /\ (forall n f, DownloadInfo.files d !! n = Some f ->
              DownloadInfo.files d1 !! n
              = Some (FileInfo.set_selected
                        (if bool_decide (n ∈ reached)
                         then include_paths else negb include_paths) f))
        /\ (forall k p, piece_at heap d k = Some p ->
              piece_at heap1 d1 k
              = Some (PieceInfo.set_selected (negb include_paths) p))).
Proof.
  intros include_paths reached.
  unfold DownloadInfo.select_files. fold (valid_mode mode).
  split; [by intros -> |]. split; [by intros -> -> |].
  intros -> -> Hf Hres Hcond. simpl. fold include_paths.
  rewrite select_paths_of_transfer by done.
  eexists _, _. split.
  { assert (Hc : include_paths && bool_decide (selected_segments d paths = [])
                 || negb include_paths
                    && bool_decide (length (selected_segments d paths)
                                    = length (DownloadInfo.files d)) = true).
    { destruct Hcond as [[H1 H2] | [H1 H2]]; rewrite H1; simpl.
      - by rewrite H2.
      - by rewrite bool_decide_eq_true_2. }
    rewrite Hc. reflexivity. }
  split; [reflexivity |]. split.
  - intros n f Hn. simpl. rewrite mark_files_lookup, list_lookup_fmap, Hn.
    simpl. fold reached. by destruct (bool_decide (n ∈ reached)).
  - intros k p Hk. unfold piece_at in *. simpl.
    destruct (DownloadInfo._pieces d !! k) as [a |] eqn:Ha; [| done].
    simpl in *. rewrite set_all_pieces_lookup.
    rewrite bool_decide_eq_true_2 by (by eapply list_elem_of_lookup_2).
    by rewrite Hk.
Qed.

Lemma selected_segments_length d paths :
  files_wf (DownloadInfo.files d) ->
  Forall (fun n => n < length (DownloadInfo.files d))
    (reached_files (DownloadInfo._file_tree d) paths) ->
  length (selected_segments d paths)
  = length (reached_files (DownloadInfo._file_tree d) paths).
Proof.
  intros Hwf. unfold selected_segments.
  generalize (reached_files (DownloadInfo._file_tree d) paths) as l.
  intros l Hl. induction Hl as [| n l Hn _ IH]; [done |].
  destruct (lookup_lt_is_Some_2 _ _ Hn) as [f Hf].
  destruct (proj1 (Forall_lookup _ _) Hwf n f Hf) as (o & Ho & _).
  simpl. unfold node_segment at 1. rewrite Hf, Ho. simpl. f_equal. exact IH.
Qed.

(** C2, amended: an unknown mode and a single-file transfer are rejected
    with the store and the transfer untouched.  A whitelist that reaches
    no file, and a blacklist that reaches every file once, are rejected
    too, but after the flags have been written: by then every piece holds
    the default of the mode ([false] for a whitelist, [true] for a
    blacklist), and so does every file except the reached ones, which
    hold the opposite. *)
Theorem select_files_rejections
    (heap : list PieceInfo.t) (d : DownloadInfo.t)
    (paths : list (list string)) (mode : string) :
  let include_paths := bool_decide (mode = "whitelist") in
  let reached := reached_files (DownloadInfo._file_tree d) paths in
  (valid_mode mode = false ->
   DownloadInfo.select_files heap d paths mode = Raised ValueError (heap, d))
  /\ (valid_mode mode = true -> DownloadInfo.is_single_file d = true ->
      DownloadInfo.select_files heap d paths mode = Raised ValueError (heap, d))
  /\ (valid_mode mode = true -> DownloadInfo.is_single_file d = false ->
      files_wf (DownloadInfo.files d) ->
      Forall (fun path =>
                exists node,
                  _get_file_tree_node (DownloadInfo._file_tree d) path
                  = inr node) paths ->
      (include_paths = true /\ reached = []
       \/ include_paths = false
          /\ reached ≡ₚ seq 0 (length (DownloadInfo.files d))) ->
      exists heap1 d1,
        DownloadInfo.select_files heap d paths mode
        = Raised ValueError (heap1, d1)
        /\ DownloadInfo._pieces d1 = DownloadInfo._pieces d
        /\ (forall n f, DownloadInfo.files d !! n = Some f ->
              DownloadInfo.files d1 !! n
              = Some (FileInfo.set_selected
                        (if bool_decide (n ∈ reached)
                         then include_paths else negb include_paths) f))
        /\ (forall k p, piece_at heap d k = Some p ->
              piece_at heap1 d1 k
              = Some (PieceInfo.set_selected (negb include_paths) p))).
Proof.
  intros include_paths reached.
  destruct (select_files_raises heap d paths mode) as (H1 & H2 & H3).
  split; [exact H1 |]. split; [exact H2 |].
  intros Hmode Hsingle Hf Hres Hcond. apply H3; try done.
  destruct Hcond as [[Hi Hr] | [Hi Hr]]; [left | right]; (split; [done |]).
  - unfold selected_segments. fold reached. by rewrite Hr.
  - rewrite selected_segments_length; [| done |].
    + fold reached. by rewrite Hr, length_seq.
    + fold reached. rewrite Hr. apply Forall_forall. intros n Hn.
      apply elem_of_seq in Hn. lia.
Qed.

Lemma sample_pieces_wf : pieces_wf sample_heap sample_transfer.
Proof.
  split; [by apply (bool_decide_unpack _) | repeat constructor].
Qed.

Lemma sample_files_wf : files_wf (DownloadInfo.files sample_transfer).
Proof.
  unfold files_wf, sample_transfer. simpl.
  repeat (constructor; [eexists; split; [reflexivity | simpl; lia] |]).
  constructor.
Qed.


Lemma select_files_rejections_witness :
  DownloadInfo.select_files sample_heap sample_transfer [["b"]] "both"
  = Raised ValueError (sample_heap, sample_transfer)
  /\ DownloadInfo.select_files single_file_transfer.1 single_file_transfer.2
       [[]] "blacklist"
     = Raised ValueError (single_file_transfer.1, single_file_transfer.2)
  /\ (exists heap1 d1,
        DownloadInfo.select_files sample_heap sample_transfer [] "whitelist"
        = Raised ValueError (heap1, d1)
        /\ piece_at heap1 d1 0
           = PieceInfo.set_selected false
               <$> piece_at sample_heap sample_transfer 0)
  /\ exists heap1 d1,
       DownloadInfo.select_files sample_heap sample_transfer [[]] "blacklist"
       = Raised ValueError (heap1, d1)
       /\ DownloadInfo.files d1 !! 0
          = FileInfo.set_selected false
              <$> DownloadInfo.files sample_transfer !! 0.
Proof.
  split; [| split; [| split]].
  - exact (proj1 (select_files_rejections sample_heap sample_transfer
                    [["b"]] "both") eq_refl).
  - exact (proj1 (proj2 (select_files_rejections single_file_transfer.1
                           single_file_transfer.2 [[]] "blacklist"))
             eq_refl eq_refl).
  - destruct (proj2 (proj2 (select_files_rejections sample_heap sample_transfer
                              [] "whitelist"))
                eq_refl eq_refl sample_files_wf (Forall_nil_2 _)
                (or_introl (conj eq_refl eq_refl)))
      as (heap1 & d1 & Hraise & _ & _ & Hpieces).
    exists heap1, d1. split; [exact Hraise |].
    by rewrite (Hpieces 0 _ eq_refl).
  - assert (Hres : Forall (fun path =>
                             exists node,
                               _get_file_tree_node
                                 (DownloadInfo._file_tree sample_transfer) path
                               = inr node) [[]])
      by (constructor; [by eexists | constructor]).
    assert (Hall : reached_files (DownloadInfo._file_tree sample_transfer) [[]]
                   ≡ₚ seq 0 (length (DownloadInfo.files sample_transfer)))
      by reflexivity.
    destruct (proj2 (proj2 (select_files_rejections sample_heap sample_transfer
                              [[]] "blacklist"))
                eq_refl eq_refl sample_files_wf Hres
                (or_intror (conj eq_refl Hall)))
      as (heap1 & d1 & Hraise & _ & Hfiles & _).
    exists heap1, d1. split; [exact Hraise |].
    by rewrite (Hfiles 0 _ eq_refl).
Defined.

(** * Further properties *)

(** ** Piece bookkeeping *)

Lemma slice_assign_true_lookup arr b e (i : nat) :
  arr !! i = Some true -> slice_assign arr b e true !! i = Some true.
Proof.
  intros Hi. unfold slice_assign. rewrite list_lookup_imap, Hi. simpl.
  by destruct (bool_decide _).
Qed.

(** The state in which [mark_downloaded_blocks] leaves the piece is the
    piece itself or the piece with new sources, bitfield and expected set. *)
Lemma mark_downloaded_blocks_cases futures p source request :
  let p' := (outcome_state
               (PieceInfo.mark_downloaded_blocks futures p source request)).2 in
  p' = p
  \/ (PieceInfo._downloaded p = false
      /\ exists sources,
           PieceInfo._sources p = Some sources
           /\ (p' = PieceInfo.with_blocks p (Some (peer_set_add sources source))
                      (PieceInfo._block_downloaded p)
                      (PieceInfo._blocks_expected p)
               /\ PieceInfo._block_downloaded p = None
               \/ exists arr expected',
                    (PieceInfo._block_downloaded p = Some arr
                     \/ PieceInfo._block_downloaded p = None
                        /\ arr = replicate
                                   (Z.to_nat (ceil_div (PieceInfo._length p)
                                                MARKED_BLOCK_SIZE)) false)
                    /\ (expected' = None -> PieceInfo._blocks_expected p = None)
                    /\ p' = PieceInfo.with_blocks p
                              (Some (peer_set_add sources source))
                              (Some (slice_assign arr
                                       (PieceInfo.mark_begin request)
                                       (PieceInfo.mark_end p arr request) true))
                              expected')).
Proof.
  unfold PieceInfo.mark_downloaded_blocks.
  destruct (PieceInfo._downloaded p) eqn:Hd; [by left |].
  destruct (PieceInfo._sources p) as [sources |] eqn:Hs; [| by left].
  right. split; [done |]. exists sources. split; [done |].
  destruct (PieceInfo._block_downloaded p) as [arr |] eqn:Ha.
  - right. exists arr.
    destruct (PieceInfo._blocks_expected p) as [expected |] eqn:He.
    + destruct (PieceInfo.scan_expected _ _ _ _ _) as [[f' ds] | e [f' ds]];
        eexists; (split; [by left |]); (split; [| reflexivity]); done.
    + exists None. split; [by left |]. split; done.
  - destruct (ceil_div (PieceInfo._length p) MARKED_BLOCK_SIZE <? 0)%Z;
      [by left |].
    right. eexists.
    destruct (PieceInfo._blocks_expected p) as [expected |] eqn:He.
    + destruct (PieceInfo.scan_expected _ _ _ _ _) as [[f' ds] | e [f' ds]];
        eexists; (split; [by right |]); (split; [| reflexivity]); done.
    + exists None. split; [by right |]. split; done.
Qed.

(** X1: [piece_inv] holds for a new piece and after [reset_content], and
    every method of a piece keeps it, whether it returns or raises. *)
Theorem piece_inv_kept (piece_hash : list Byte.byte) (length : Z)
    (futures : list BlockRequestFuture.t) (p : PieceInfo.t)
    (source : Peer.t) (request : BlockRequest.t) :
  piece_inv (PieceInfo.__init__ piece_hash length)
  /\ piece_inv (PieceInfo.reset_content p)
  /\ (piece_inv p -> piece_inv (PieceInfo.reset_run_state p))
  /\ (piece_inv p -> piece_inv (outcome_state (PieceInfo.mark_as_downloaded p)))
  /\ (piece_inv p ->
      piece_inv (outcome_state
                   (PieceInfo.mark_downloaded_blocks futures p source request)).2).
Proof.
  split; [| split; [| split; [| split]]].
  - unfold piece_inv. simpl. repeat split; try done; by eexists.
  - unfold piece_inv. simpl. repeat split; try done; by eexists.
  - intros (H1 & H2 & H3). unfold piece_inv. simpl.
    split; [done |]. split; [| done].
    intros Hd. split; [by apply H2 | by eexists].
  - intros Hinv. unfold PieceInfo.mark_as_downloaded.
    destruct (PieceInfo._downloaded p); [done |].
    unfold piece_inv. simpl. by repeat split.
  - intros (H1 & H2 & H3).
    destruct (mark_downloaded_blocks_cases futures p source request)
      as [-> | (Hd & sources & Hs & Hcase)]; [done |].
    destruct (H2 Hd) as [_ [expected He]].
    destruct Hcase as [[-> Ha] | (arr & expected' & Harr & Hexp & ->)].
    + unfold piece_inv. simpl. rewrite Hd, Ha, He.
      repeat split; try done; by eexists.
    + unfold piece_inv. simpl. rewrite Hd. split; [done |]. split.
      * intros _. split; [by eexists |].
        destruct expected' as [x |]; [by eexists |].
        rewrite Hexp in He by done. done.
      * intros arr' [= <-]. rewrite slice_assign_length.
        destruct Harr as [Ha | [_ ->]]; [by apply H3 |].
        by rewrite length_replicate.
Qed.

Lemma piece_inv_kept_witness :
  piece_inv
    (outcome_state
       (PieceInfo.mark_downloaded_blocks pending_futures pending_piece peer_a
          (BlockRequest.Build_t 0 0 1024))).2.
Proof.
  refine (proj2 (proj2 (proj2 (proj2
            (piece_inv_kept [] 0 pending_futures pending_piece peer_a
               (BlockRequest.Build_t 0 0 1024))))) _).
  unfold piece_inv, pending_piece. simpl.
  split; [done |]. split; [intros _; split; by eexists | done].
Defined.

(** X2: [mark_downloaded_blocks] never clears a bit: whatever the request
    and whether the call returns or raises, the bitfield keeps its length
    and every bit that was set is still set. *)
Theorem mark_downloaded_blocks_monotone
    (futures : list BlockRequestFuture.t) (p : PieceInfo.t)
    (source : Peer.t) (request : BlockRequest.t) (arr : list bool) (i : nat) :
  PieceInfo._block_downloaded p = Some arr ->
  arr !! i = Some true ->
  exists arr',
    PieceInfo._block_downloaded
      (outcome_state
         (PieceInfo.mark_downloaded_blocks futures p source request)).2
    = Some arr'
    /\ length arr' = length arr
    /\ arr' !! i = Some true.
Proof.
  intros Ha Hi.
  destruct (mark_downloaded_blocks_cases futures p source request)
    as [-> | (Hd & sources & Hs & Hcase)]; [by exists arr |].
  destruct Hcase as [[_ Hnone] | (arr0 & expected' & Harr & _ & ->)];
    [congruence |].
  destruct Harr as [Ha0 | [Hnone _]]; [| congruence].
  assert (arr0 = arr) as -> by congruence.
  eexists. split; [reflexivity |].
  split; [apply slice_assign_length | by apply slice_assign_true_lookup].
Qed.

Lemma mark_downloaded_blocks_monotone_witness :
  exists arr',
    PieceInfo._block_downloaded
      (outcome_state
         (PieceInfo.mark_downloaded_blocks pending_futures
            (PieceInfo.with_blocks pending_piece (Some []) (Some [true; false])
               (Some [0; 1; 2]))
            peer_b (BlockRequest.Build_t 0 1024 476))).2
    = Some arr'
    /\ length arr' = 2
    /\ arr' !! 0 = Some true.
Proof.
  exact (mark_downloaded_blocks_monotone pending_futures
           (PieceInfo.with_blocks pending_piece (Some []) (Some [true; false])
              (Some [0; 1; 2]))
           peer_b (BlockRequest.Build_t 0 1024 476) [true; false] 0
           eq_refl eq_refl).
Defined.

Lemma mark_downloaded_blocks_returns futures p source request sources expected :
  PieceInfo._downloaded p = false ->
  PieceInfo._sources p = Some sources ->
  PieceInfo._blocks_expected p = Some expected ->
  expected_pending futures expected ->
  (0 <= PieceInfo._length p)%Z ->
  let arr' :=
    slice_assign (current_bitfield p) (PieceInfo.mark_begin request)
      (PieceInfo.mark_end p (current_bitfield p) request) true in
  exists futures',
    PieceInfo.mark_downloaded_blocks futures p source request
    = Returned
        (futures',
         PieceInfo.with_blocks p (Some (peer_set_add sources source))
           (Some arr')
           (Some (foldl (future_set_remove futures') expected
                    (filter (fun r => is_covered futures arr' r = true)
                       expected))))
    /\ forall r,
         futures' !! r
         = if bool_decide (r ∈ expected) && is_covered futures arr' r
           then resolved source <$> futures !! r
           else futures !! r.
Proof.
  intros Hd Hs He [Hnd Hpend] Hlen arr'.
  destruct (scan_expected_spec arr' source expected futures [] Hnd Hpend)
    as (futures' & Hscan & Hlook).
  exists futures'. split; [| done].
  unfold PieceInfo.mark_downloaded_blocks. rewrite Hd, Hs.
  assert (Halloc : match PieceInfo._block_downloaded p with
                   | Some a => inr a
                   | None =>
                       if (ceil_div (PieceInfo._length p) MARKED_BLOCK_SIZE <? 0)%Z
                       then inl ValueError
                       else inr (replicate
                                   (Z.to_nat (ceil_div (PieceInfo._length p)
                                                MARKED_BLOCK_SIZE)) false)
                   end = inr (current_bitfield p)).
  { unfold current_bitfield.
    destruct (PieceInfo._block_downloaded p); [done |].
    rewrite (proj2 (Z.ltb_ge _ _)); [done |].
    by apply ceil_div_nonneg. }
  rewrite Halloc, He. fold arr'. rewrite Hscan. reflexivity.
Qed.

Lemma bits_all_Forall (l : list bool) :
  bits_all l = true <-> Forall (fun b => b = true) l.
Proof.
  unfold bits_all. rewrite forallb_forall, Forall_forall.
  split; intros H x Hx; apply H; by apply list_elem_of_In.
Qed.

Lemma bits_all_py_slice (l : list bool) b e :
  bits_all l = true -> bits_all (py_slice l b e) = true.
Proof.
  rewrite !bits_all_Forall. unfold py_slice. intros H.
  by apply Forall_take, Forall_drop.
Qed.

Lemma slice_assign_whole arr :
  bits_all (slice_assign arr 0 (Z.of_nat (length arr)) true) = true.
Proof.
  apply bits_all_Forall, Forall_lookup. intros i b Hb.
  rewrite slice_assign_lookup in Hb by lia.
  destruct (arr !! i) as [x |] eqn:Hx; [| done].
  apply lookup_lt_Some in Hx. simpl in Hb.
  rewrite bool_decide_eq_true_2 in Hb by lia. by injection Hb as <-.
Qed.

(** X3: a request for the whole piece completes it: on a piece still to
    download whose expected futures are all pending, marking the block
    [(0, length of the piece)] returns, [are_all_blocks_downloaded] holds
    afterwards, every expected future is resolved with the source, and the
    expected set is empty. *)
Theorem whole_piece_request_completes
    (futures : list BlockRequestFuture.t) (p : PieceInfo.t) (source : Peer.t)
    (piece_index : Z) (sources : list Peer.t) (expected : list nat) :
  PieceInfo._downloaded p = false ->
  PieceInfo._sources p = Some sources ->
  PieceInfo._blocks_expected p = Some expected ->
  expected_pending futures expected ->
  (0 <= PieceInfo._length p)%Z ->
  exists futures' p',
    PieceInfo.mark_downloaded_blocks futures p source
      (BlockRequest.Build_t piece_index 0 (PieceInfo._length p))
    = Returned (futures', p')
    /\ PieceInfo.are_all_blocks_downloaded p' = true
    /\ PieceInfo._blocks_expected p' = Some []
    /\ (forall r, r ∈ expected ->
          futures' !! r = resolved source <$> futures !! r)
    /\ (forall r, r ∉ expected -> futures' !! r = futures !! r).
Proof.
  intros Hd Hs He Hpend Hlen.
  destruct (mark_downloaded_blocks_returns futures p source
              (BlockRequest.Build_t piece_index 0 (PieceInfo._length p))
              sources expected Hd Hs He Hpend Hlen)
    as (futures' & Hret & Hlook).
  assert (Hmb : PieceInfo.mark_begin
                  (BlockRequest.Build_t piece_index 0 (PieceInfo._length p))
                = 0%Z) by reflexivity.
  assert (Hme : PieceInfo.mark_end p (current_bitfield p)
                  (BlockRequest.Build_t piece_index 0 (PieceInfo._length p))
                = Z.of_nat (length (current_bitfield p))).
  { unfold PieceInfo.mark_end. simpl. by rewrite bool_decide_eq_true_2 by lia. }
  rewrite Hmb, Hme in Hret, Hlook.
  set (arr' := slice_assign (current_bitfield p) 0
                 (Z.of_nat (length (current_bitfield p))) true) in *.
  assert (Hall : bits_all arr' = true) by apply slice_assign_whole.
  assert (Hcov : forall r, r ∈ expected -> is_covered futures arr' r = true).
  { intros r Hr. destruct Hpend as [_ Hp].
    destruct (Hp r Hr) as (fut & Hfut & _). unfold is_covered. rewrite Hfut.
    by apply bits_all_py_slice. }
  eexists _, _. split; [exact Hret |]. simpl.
  split; [unfold PieceInfo.are_all_blocks_downloaded; simpl;
          by rewrite Hall, orb_true_r |].
  split.
  { f_equal. apply elem_of_nil_inv. intros x Hx.
    apply foldl_future_set_remove in Hx as [Hx Hnot]. apply Hnot.
    apply list_elem_of_filter. split; [by apply Hcov | done]. }
  split.
  - intros r Hr. rewrite Hlook, bool_decide_eq_true_2 by done.
    by rewrite Hcov.
  - intros r Hr. rewrite Hlook. by rewrite bool_decide_eq_false_2 by done.
Qed.

Lemma whole_piece_request_completes_witness :
  exists futures' p',
    PieceInfo.mark_downloaded_blocks pending_futures pending_piece peer_a
      (BlockRequest.Build_t 0 0 (PieceInfo._length pending_piece))
    = Returned (futures', p')
    /\ PieceInfo.are_all_blocks_downloaded p' = true
    /\ PieceInfo._blocks_expected p' = Some [].
Proof.
  assert (Hpend : expected_pending pending_futures [0; 1; 2]).
  { split; [by apply (bool_decide_unpack _) |].
    intros r Hr. rewrite !elem_of_cons, elem_of_nil in Hr.
    destruct Hr as [-> | [-> | [-> | []]]]; eexists; by split. }
  destruct (whole_piece_request_completes pending_futures pending_piece peer_a
              0 [] [0; 1; 2] eq_refl eq_refl eq_refl Hpend)
    as (futures' & p' & H1 & H2 & H3 & _); [simpl; lia |].
  by exists futures', p'.
Defined.

(** X4: once [mark_as_downloaded] has returned, the piece reports all its
    blocks downloaded and [mark_downloaded_blocks] raises [ValueError]
    without touching the store or the piece; [reset_content] undoes it: the
    piece is to download again, with no block recorded, and
    [mark_as_downloaded] returns on it. *)
Theorem downloaded_piece_is_sealed
    (futures : list BlockRequestFuture.t) (p p' : PieceInfo.t)
    (source : Peer.t) (request : BlockRequest.t) :
  PieceInfo.mark_as_downloaded p = Returned p' ->
  PieceInfo.are_all_blocks_downloaded p' = true
  /\ PieceInfo.mark_downloaded_blocks futures p' source request
     = Raised ValueError (futures, p')
  /\ PieceInfo._downloaded (PieceInfo.reset_content p') = false
  /\ PieceInfo.are_all_blocks_downloaded (PieceInfo.reset_content p') = false
  /\ PieceInfo.reset_content p' = PieceInfo.reset_content p
  /\ exists p'',
       PieceInfo.mark_as_downloaded (PieceInfo.reset_content p') = Returned p''.
Proof.
  unfold PieceInfo.mark_as_downloaded.
  destruct (PieceInfo._downloaded p) eqn:Hd; [done |].
  intros [= <-]. repeat split. by eexists.
Qed.

Lemma downloaded_piece_is_sealed_witness :
  PieceInfo.mark_downloaded_blocks pending_futures
    (outcome_state (PieceInfo.mark_as_downloaded pending_piece)) peer_a
    (BlockRequest.Build_t 0 0 1024)
  = Raised ValueError
      (pending_futures,
       outcome_state (PieceInfo.mark_as_downloaded pending_piece)).
Proof.
  exact (proj1 (proj2 (downloaded_piece_is_sealed pending_futures pending_piece
                         _ peer_a (BlockRequest.Build_t 0 0 1024) eq_refl))).
Defined.

(** ** Layout built by the constructor *)










(** X6: after a successful [__init__], [get_real_piece_length] gives the
    length stored in the piece, for every piece of the transfer, and it
    still does after [reset_run_state]. *)
Theorem get_real_piece_length_matches
    heap ih pl hashes name files priv heap' d (i : nat) (p : PieceInfo.t) :
  DownloadInfo.__init__ heap ih pl hashes name files priv = inr (heap', d) ->
  piece_at heap' d i = Some p ->
  DownloadInfo.get_real_piece_length d (Z.of_nat i) = PieceInfo._length p
  /\ exists p',
       piece_at (DownloadInfo.reset_run_state heap' d).1
                (DownloadInfo.reset_run_state heap' d).2 i = Some p'
       /\ DownloadInfo.get_real_piece_length
            (DownloadInfo.reset_run_state heap' d).2 (Z.of_nat i)
          = PieceInfo._length p'.
Proof.
  intros Hinit Hp.
  destruct (init_inv _ _ _ _ _ _ _ _ _ Hinit)
    as (tree & _ & Hne & Hpl & Hceil & -> & Hfiles & _ & Hplen & _ & Hpieces).
  assert (Htot : DownloadInfo.total_size d = DownloadInfo.sum_lengths files).
  { unfold DownloadInfo.total_size. by rewrite Hfiles, sum_lengths_assign_offsets. }
  assert (Hcount : DownloadInfo.piece_count d = Z.of_nat (length hashes)).
  { unfold DownloadInfo.piece_count.
    by rewrite Hpieces, length_seq, initial_pieces_length. }
  assert (Hwf : pieces_wf
                  (heap ++ DownloadInfo.initial_pieces pl hashes
                             (DownloadInfo.sum_lengths files)) d)
    by (by apply pieces_wf_fresh).
  assert (Hreal : DownloadInfo.get_real_piece_length d (Z.of_nat i)
                  = PieceInfo._length p).
  { pose proof Hp as Hp'. rewrite piece_at_fresh in Hp' by done.
    apply initial_pieces_lookup in Hp' as (_ & _ & ->); [| done].
    unfold DownloadInfo.get_real_piece_length. rewrite Hcount, Htot, Hplen.
    destruct hashes as [| h hs]; [done |]. simpl length.
    case_bool_decide; case_decide; simpl in *; lia. }
  split; [done |].
  exists (PieceInfo.reset_run_state p).
  split; [apply reset_run_state_piece_at; [by destruct Hwf | done] |].
  change (PieceInfo._length (PieceInfo.reset_run_state p))
    with (PieceInfo._length p).
  rewrite <- Hreal. unfold DownloadInfo.get_real_piece_length,
    DownloadInfo.piece_count, DownloadInfo.total_size. simpl.
  fold (pieces_of (heap ++ DownloadInfo.initial_pieces pl hashes
                             (DownloadInfo.sum_lengths files)) d).
  by rewrite length_seq, pieces_of_length by (by destruct Hwf).
Qed.

Lemma get_real_piece_length_matches_witness :
  DownloadInfo.get_real_piece_length sample_transfer 2 = 952%Z.
Proof.
  exact (proj1 (get_real_piece_length_matches [] [] 1024 sample_hashes "sample"
                  sample_files false sample_heap sample_transfer 2 _
                  eq_refl eq_refl)).
Defined.

(** ** Progress across operations *)

Lemma bytes_left_last heap d :
  DownloadInfo.bytes_left heap d
  = match length (DownloadInfo._pieces d) with
    | 0 => inl IndexError
    | S k =>
        match piece_at heap d k with
        | None => inl IndexError
        | Some last_piece =>
            let result :=
              ((DownloadInfo.piece_count d
                - DownloadInfo.downloaded_piece_count d)
               * DownloadInfo.piece_length d)%Z in
            if PieceInfo._downloaded last_piece then inr result
            else inr (result + (PieceInfo._length last_piece
                                - DownloadInfo.piece_length d))%Z
        end
    end.
Proof.
  unfold DownloadInfo.bytes_left, DownloadInfo.piece_count, piece_at, py_index.
  destruct (length (DownloadInfo._pieces d)) as [| k] eqn:Hlen; [done |].
  rewrite (proj2 (Z.leb_le _ _)) by lia.
  rewrite (proj2 (Z.ltb_lt _ _)) by lia.
  replace (Z.to_nat (Z.of_nat (S k) - 1)) with k by lia.
  destruct (DownloadInfo._pieces d !! k ≫= (fun a0 => heap !! a0)); [| done].
  by destruct (PieceInfo._downloaded _).
Qed.

(** X7: right after a successful [__init__], [bytes_left] is the total
    size of the files. *)
Theorem bytes_left_of_new_transfer
    heap ih pl hashes name files priv heap' d :
  DownloadInfo.__init__ heap ih pl hashes name files priv = inr (heap', d) ->
  DownloadInfo.bytes_left heap' d = inr (DownloadInfo.total_size d).
Proof.
  intros Hinit.
  destruct (init_inv _ _ _ _ _ _ _ _ _ Hinit)
    as (tree & _ & Hne & Hpl & Hceil & -> & Hfiles & _ & Hplen & Hdpc & Hpieces).
  assert (Htot : DownloadInfo.total_size d = DownloadInfo.sum_lengths files).
  { unfold DownloadInfo.total_size. by rewrite Hfiles, sum_lengths_assign_offsets. }
  assert (Hlen : length (DownloadInfo._pieces d) = length hashes)
    by (by rewrite Hpieces, length_seq, initial_pieces_length).
  rewrite bytes_left_last. unfold DownloadInfo.piece_count. rewrite Hlen.
  destruct (length hashes) as [| k] eqn:Hk; [by destruct hashes |].
  rewrite piece_at_fresh by done.
  assert (Hlt : k < length (DownloadInfo.initial_pieces pl hashes
                              (DownloadInfo.sum_lengths files)))
    by (rewrite initial_pieces_length by done; lia).
  destruct (lookup_lt_is_Some_2 _ _ Hlt) as [p Hlast]. rewrite Hlast.
  apply initial_pieces_lookup in Hlast as (_ & -> & Hl); [| done].
  rewrite decide_True in Hl by lia. simpl.
  rewrite Hdpc, Hplen, Hl, Htot, Hk. f_equal. lia.
Qed.

Lemma bytes_left_of_new_transfer_witness :
  DownloadInfo.bytes_left sample_heap sample_transfer
  = inr (DownloadInfo.total_size sample_transfer).
Proof.
  exact (bytes_left_of_new_transfer [] [] 1024 sample_hashes "sample"
           sample_files false sample_heap sample_transfer eq_refl).
Defined.

Lemma reset_run_state_piece_at_None heap d i :
  Forall (fun a => a < length heap) (DownloadInfo._pieces d) ->
  piece_at heap d i = None ->
  piece_at (DownloadInfo.reset_run_state heap d).1
           (DownloadInfo.reset_run_state heap d).2 i = None.
Proof.
  intros Hwf Hnone. rewrite <- pieces_of_lookup in Hnone by done.
  apply lookup_ge_None in Hnone. unfold piece_at. simpl.
  fold (pieces_of heap d). by rewrite lookup_seq_ge.
Qed.

(** X8: [reset_run_state] keeps the progress: [bytes_left] gives the same
    result, value or [IndexError], before and after it. *)
Theorem reset_run_state_keeps_bytes_left
    (heap : list PieceInfo.t) (d : DownloadInfo.t) :
  Forall (fun a => a < length heap) (DownloadInfo._pieces d) ->
  DownloadInfo.bytes_left (DownloadInfo.reset_run_state heap d).1
    (DownloadInfo.reset_run_state heap d).2
  = DownloadInfo.bytes_left heap d.
Proof.
  intros Hwf. rewrite !bytes_left_last.
  assert (Hlen : length (DownloadInfo._pieces (DownloadInfo.reset_run_state heap d).2)
                 = length (DownloadInfo._pieces d)).
  { simpl. fold (pieces_of heap d). by rewrite length_seq, pieces_of_length. }
  unfold DownloadInfo.piece_count. rewrite Hlen.
  destruct (length (DownloadInfo._pieces d)) as [| k]; [done |].
  destruct (piece_at heap d k) as [p |] eqn:Hlast.
  - by rewrite (reset_run_state_piece_at heap d _ p Hwf Hlast).
  - by rewrite (reset_run_state_piece_at_None heap d _ Hwf Hlast).
Qed.

Lemma reset_run_state_keeps_bytes_left_witness :
  DownloadInfo.bytes_left (DownloadInfo.reset_run_state run_heap sample_transfer).1
    (DownloadInfo.reset_run_state run_heap sample_transfer).2
  = DownloadInfo.bytes_left run_heap sample_transfer.
Proof.
  apply (reset_run_state_keeps_bytes_left run_heap sample_transfer).
  repeat constructor.
Defined.

(** ** Distrust on any transfer *)

Lemma is_banned_rate (d : DownloadInfo.t) (p : Peer.t) :
  DownloadInfo.is_banned d p
  = bool_decide (5 <= distrust_rate d (Peer.host p))%Z.
Proof.
  unfold DownloadInfo.is_banned, distrust_rate,
    DownloadInfo.DISTRUST_RATE_TO_BAN.
  by destruct (DownloadInfo._host_distrust_rates d !! Peer.host p).
Qed.

(** X9: on any transfer, each [increase_distrust] raises the counter of
    the peer's host by one and leaves the other hosts alone; hence a ban is
    never lifted by further calls, calls naming other hosts never change
    whether a peer is banned, and a host already distrusted [r] times is
    banned once the calls naming it bring the count to five. *)
Theorem distrust_accumulates (d : DownloadInfo.t) (calls : list Peer.t)
    (p : Peer.t) :
  distrust_rate (distrust_all d calls) (Peer.host p)
  = (distrust_rate d (Peer.host p)
     + Z.of_nat (calls_for_host (Peer.host p) calls))%Z
  /\ DownloadInfo.is_banned (distrust_all d calls) p
     = bool_decide (5 <= distrust_rate d (Peer.host p)
                         + Z.of_nat (calls_for_host (Peer.host p) calls))%Z
  /\ (DownloadInfo.is_banned d p = true ->
      DownloadInfo.is_banned (distrust_all d calls) p = true)
  /\ (calls_for_host (Peer.host p) calls = 0 ->
      DownloadInfo.is_banned (distrust_all d calls) p
      = DownloadInfo.is_banned d p).
Proof.
  assert (Hrate : distrust_rate (distrust_all d calls) (Peer.host p)
                  = (distrust_rate d (Peer.host p)
                     + Z.of_nat (calls_for_host (Peer.host p) calls))%Z).
  { unfold distrust_rate. rewrite distrust_all_rates.
    destruct (decide (calls_for_host (Peer.host p) calls = 0)) as [-> | _];
      simpl; lia. }
  split; [done |]. split; [by rewrite is_banned_rate, Hrate |].
  split.
  - rewrite !is_banned_rate, Hrate, !bool_decide_eq_true. lia.
  - intros Hz. by rewrite !is_banned_rate, Hrate, Hz, Z.add_0_r.
Qed.

Lemma distrust_accumulates_witness :
  DownloadInfo.is_banned
    (distrust_all (distrust_all sample_transfer (replicate 5 peer_a))
       [peer_b; peer_b])
    peer_a'
  = true.
Proof.
  refine (proj1 (proj2 (proj2
            (distrust_accumulates
               (distrust_all sample_transfer (replicate 5 peer_a))
               [peer_b; peer_b] peer_a'))) _).
  vm_compute. reflexivity.
Defined.

(** ** Selection: errors on paths *)

Lemma get_file_tree_node_errors node path e :
  _get_file_tree_node node path = inl e -> e = ValueError \/ e = TypeError.
Proof.
  revert node. induction path as [| elem rest IH]; intros node H; [done |].
  simpl in H. destruct node as [file | entries]; [right; congruence |].
  destruct (dict_get entries elem) as [child |]; [by eapply IH |].
  left. congruence.
Qed.

Lemma select_paths_raises include_paths tree good path rest files segments e :
  files_wf files ->
  Forall (fun q => exists node, _get_file_tree_node tree q = inr node) good ->
  _get_file_tree_node tree path = inl e ->
  select_paths include_paths tree (good ++ path :: rest) files segments
  = Raised e
      (mark_files include_paths (reached_files tree good) files,
       segments ++ omap (node_segment files) (reached_files tree good)).
Proof.
  intros Hwf Hgood Hbad. revert files segments Hwf.
  induction Hgood as [| q good [node Hq] _ IH]; intros files segments Hwf.
  - simpl. rewrite Hbad. by rewrite app_nil_r.
  - simpl. rewrite Hq. rewrite mark_nodes_returns by done.
    rewrite IH by (by apply mark_files_wf).
    rewrite mark_files_app, omap_app, app_assoc. do 3 f_equal.
    apply omap_ext_fun. intros m. apply node_segment_mark_files.
Qed.

(** X10: with an accepted mode on a multi-file transfer, the first path
    that does not resolve makes [select_files] raise: [ValueError] when a
    segment of the path is missing from a directory, [TypeError] when the
    path goes on below a file.  The error comes after the flags have been
    reset: every piece holds the default of the mode, and so does every
    file except those reached by the paths before the failing one. *)
Theorem select_files_unresolved_path
    (heap : list PieceInfo.t) (d : DownloadInfo.t)
    (good : list (list string)) (path : list string)
    (rest : list (list string)) (mode : string) (e : exn) :
  valid_mode mode = true ->
  DownloadInfo.is_single_file d = false ->
  files_wf (DownloadInfo.files d) ->
  Forall (fun q => exists node,
            _get_file_tree_node (DownloadInfo._file_tree d) q = inr node) good ->
  _get_file_tree_node (DownloadInfo._file_tree d) path = inl e ->
  let include_paths := bool_decide (mode = "whitelist") in
  let reached := reached_files (DownloadInfo._file_tree d) good in
  (e = ValueError \/ e = TypeError)
  /\ exists heap1 d1,
       DownloadInfo.select_files heap d (good ++ path :: rest) mode
       = Raised e (heap1, d1)
       /\ (forall n f, DownloadInfo.files d !! n = Some f ->
             DownloadInfo.files d1 !! n
             = Some (FileInfo.set_selected
                       (if bool_decide (n ∈ reached)
                        then include_paths else negb include_paths) f))
       /\ (forall k p, piece_at heap d k = Some p ->
             piece_at heap1 d1 k
             = Some (PieceInfo.set_selected (negb include_paths) p)).
Proof.
  intros Hmode Hsingle Hwf Hgood Hbad include_paths reached.
  split; [by eapply get_file_tree_node_errors |].
  unfold DownloadInfo.select_files. fold (valid_mode mode).
  rewrite Hmode, Hsingle. simpl. fold include_paths.
  rewrite (select_paths_raises _ _ good path rest _ _ e);
    [| by apply files_wf_map | done | done].
  eexists _, _. split; [reflexivity |]. split.
  - intros n f Hn. simpl. rewrite mark_files_lookup, list_lookup_fmap, Hn.
    simpl. fold reached. by destruct (bool_decide (n ∈ reached)).
  - intros k p Hk. unfold piece_at in *. simpl.
    destruct (DownloadInfo._pieces d !! k) as [a |] eqn:Ha; [| done].
    simpl in *. rewrite set_all_pieces_lookup.
    rewrite bool_decide_eq_true_2 by (by eapply list_elem_of_lookup_2).
    by rewrite Hk.
Qed.

Lemma select_files_unresolved_path_witness :
  exists heap1 d1,
    DownloadInfo.select_files sample_heap sample_transfer
      [["b"]; ["a"; "z"]; ["a"]] "whitelist"
    = Raised ValueError (heap1, d1)
    /\ DownloadInfo.files d1 !! 2
       = FileInfo.set_selected true <$> DownloadInfo.files sample_transfer !! 2.
Proof.
  assert (Hgood : Forall (fun q => exists node,
                            _get_file_tree_node
                              (DownloadInfo._file_tree sample_transfer) q
                            = inr node) [["b"]])
    by (constructor; [by eexists | constructor]).
  destruct (select_files_unresolved_path sample_heap sample_transfer
              [["b"]] ["a"; "z"] [["a"]] "whitelist" ValueError
              eq_refl eq_refl sample_files_wf Hgood eq_refl)
    as (_ & heap1 & d1 & Hraise & Hfiles & _).
  exists heap1, d1. split; [exact Hraise |].
  by rewrite (Hfiles 2 _ eq_refl).
Defined.

(** ** Selection: the selected files stay covered *)





Lemma map_mark_files {B} (g : FileInfo.t -> B) v w nodes files :
  (forall u f, g (FileInfo.set_selected u f) = g f) ->
  map g (mark_files v nodes (map (FileInfo.set_selected w) files))
  = map g files.
Proof.
  intros Hg. apply list_eq. intros n.
  change (map g) with (fmap (M := list) g).
  rewrite !list_lookup_fmap, mark_files_lookup.
  change (map (FileInfo.set_selected w)) with
    (fmap (M := list) (FileInfo.set_selected w)).
  rewrite list_lookup_fmap.
  destruct (files !! n) as [f |]; [| done]. simpl.
  destruct (bool_decide _); by rewrite ?Hg.
Qed.





(** ** Selection: a call replaces the previous selection *)

Lemma mark_indices_any v (pieces : list nat) indices h h' h2 :
  mark_indices v pieces indices h = Returned h' ->
  exists h2', mark_indices v pieces indices h2 = Returned h2'.
Proof.
  revert h h2. induction indices as [| i rest IH]; intros h h2 H; simpl in *.
  - by eexists.
  - unfold set_piece_selected in *.
    destruct (py_index (length pieces) i) as [k |]; [| done].
    destruct (pieces !! k) as [a |]; [| done]. by eapply IH.
Qed.

Lemma mark_segments_any include_paths pl (pieces : list nat) segments h h' h2 :
  mark_segments include_paths pl pieces segments h = Returned h' ->
  exists h2', mark_segments include_paths pl pieces segments h2 = Returned h2'.
Proof.
  revert h h2. induction segments as [| seg rest IH]; intros h h2 H; simpl in *.
  - by eexists.
  - destruct (bool_decide (pl = 0%Z)); [done |].
    destruct (piece_range include_paths pl seg) as [pb pe].
    destruct (mark_indices include_paths pieces (py_range pb pe) h)
      as [h1 | e h1] eqn:Hmi; [| done].
    destruct (mark_indices_any _ _ _ _ _ h2 Hmi) as [h3 ->]. by eapply IH.
Qed.

Lemma select_files_inv heap d paths mode heap' d' :
  files_wf (DownloadInfo.files d) ->
  DownloadInfo.select_files heap d paths mode = Returned (heap', d') ->
  let include_paths := bool_decide (mode = "whitelist") in
  valid_mode mode = true
  /\ DownloadInfo.is_single_file d = false
  /\ Forall (fun path =>
               exists node,
                 _get_file_tree_node (DownloadInfo._file_tree d) path = inr node)
       paths
  /\ (include_paths && bool_decide (selected_segments d paths = [])
      || negb include_paths
         && bool_decide (length (selected_segments d paths)
                         = length (DownloadInfo.files d))) = false
  /\ mark_segments include_paths (DownloadInfo.piece_length d)
       (DownloadInfo._pieces d) (united_segments_of d paths)
       (DownloadInfo.set_all_pieces (negb include_paths)
          (DownloadInfo._pieces d) heap)
     = Returned heap'.
Proof.
  intros Hwf H include_paths.
  unfold DownloadInfo.select_files in H. fold (valid_mode mode) in H.
  destruct (valid_mode mode) eqn:Hmode; [| done]. simpl in H.
  destruct (DownloadInfo.is_single_file d); [done |].
  fold include_paths in H.
  destruct (select_paths include_paths (DownloadInfo._file_tree d) paths
              (map (FileInfo.set_selected (negb include_paths))
                 (DownloadInfo.files d)) [])
    as [[files2 segments] | e [files2 segments]] eqn:Hsel; [| done].
  pose proof (select_paths_resolves _ _ _ _ _ _ Hsel) as Hres.
  rewrite select_paths_of_transfer in Hsel by done.
  injection Hsel as <- <-.
  destruct (_ || _); [done |].
  fold (united_segments_of d paths) in H. unfold DownloadInfo.pieces in H.
  destruct (mark_segments _ _ _ _ _) as [heap2 | e heap2]; [| done].
  by injection H as <- _.
Qed.

Lemma select_files_intro heap d paths mode heap' :
  files_wf (DownloadInfo.files d) ->
  let include_paths := bool_decide (mode = "whitelist") in
  valid_mode mode = true ->
  DownloadInfo.is_single_file d = false ->
  Forall (fun path =>
            exists node,
              _get_file_tree_node (DownloadInfo._file_tree d) path = inr node)
    paths ->
  (include_paths && bool_decide (selected_segments d paths = [])
   || negb include_paths
      && bool_decide (length (selected_segments d paths)
                      = length (DownloadInfo.files d))) = false ->
  mark_segments include_paths (DownloadInfo.piece_length d)
    (DownloadInfo._pieces d) (united_segments_of d paths)
    (DownloadInfo.set_all_pieces (negb include_paths)
       (DownloadInfo._pieces d) heap)
  = Returned heap' ->
  DownloadInfo.select_files heap d paths mode
  = Returned
      (heap',
       DownloadInfo.with_files d
         (mark_files include_paths
            (reached_files (DownloadInfo._file_tree d) paths)
            (map (FileInfo.set_selected (negb include_paths))
               (DownloadInfo.files d)))).
Proof.
  intros Hwf include_paths Hmode Hsingle Hres Hcond Hms.
  unfold DownloadInfo.select_files. fold (valid_mode mode).
  rewrite Hmode, Hsingle. simpl. fold include_paths.
  rewrite select_paths_of_transfer by done. rewrite Hcond.
  fold (united_segments_of d paths). unfold DownloadInfo.pieces.
  by rewrite Hms.
Qed.

Lemma is_single_file_by_paths d1 d2 :
  map FileInfo._path (DownloadInfo.files d1)
  = map FileInfo._path (DownloadInfo.files d2) ->
  DownloadInfo.is_single_file d1 = DownloadInfo.is_single_file d2.
Proof.
  unfold DownloadInfo.is_single_file.
  destruct (DownloadInfo.files d1) as [| f1 [| g1 l1]],
    (DownloadInfo.files d2) as [| f2 [| g2 l2]]; try done.
  simpl. by intros [= ->].
Qed.

Lemma piece_at_None_pieces heap d k :
  pieces_wf heap d ->
  piece_at heap d k = None <-> DownloadInfo._pieces d !! k = None.
Proof.
  intros [_ Hvalid]. unfold piece_at. split.
  - intros H. destruct (DownloadInfo._pieces d !! k) as [a |] eqn:Ha; [| done].
    simpl in H. apply lookup_ge_None in H.
    pose proof (proj1 (Forall_lookup _ _) Hvalid k a Ha). simpl in *. lia.
  - by intros ->.
Qed.

(** X12: a call of [select_files] replaces the previous selection instead
    of adding to it: if two calls return when made on the same state, then
    the second also returns when made after the first, and it leaves the
    files and the pieces flagged as it does when made alone. *)
Theorem select_files_replaces_selection
    (heap : list PieceInfo.t) (d : DownloadInfo.t)
    (paths1 paths2 : list (list string)) (mode1 mode2 : string)
    (heap1 heap2 : list PieceInfo.t) (d1 d2 : DownloadInfo.t) :
  pieces_wf heap d ->
  files_wf (DownloadInfo.files d) ->
  (0 < DownloadInfo.piece_length d)%Z ->
  DownloadInfo.select_files heap d paths1 mode1 = Returned (heap1, d1) ->
  DownloadInfo.select_files heap d paths2 mode2 = Returned (heap2, d2) ->
  exists heap12 d12,
    DownloadInfo.select_files heap1 d1 paths2 mode2 = Returned (heap12, d12)
    /\ DownloadInfo.files d12 = DownloadInfo.files d2
    /\ forall k, piece_at heap12 d12 k = piece_at heap2 d2 k.
Proof.
  intros Hp Hf Hpl H1 H2.
  destruct (select_files_preserves _ _ _ _ _ _ Hp Hf Hpl H1)
    as (Hp1 & Hf1 & Hpl1 & Htree1 & Hpieces1 & Hseg1).
  destruct (select_files_returned _ _ _ _ _ _ Hp Hf Hpl H1)
    as (_ & _ & Hd1 & _ & Hflags1).
  destruct (select_files_returned _ _ _ _ _ _ Hp Hf Hpl H2)
    as (_ & _ & Hd2 & _ & Hflags2).
  destruct (select_files_preserves _ _ _ _ _ _ Hp Hf Hpl H2)
    as (Hp2 & _ & _ & _ & Hpieces2 & _).
  destruct (select_files_inv _ _ _ _ _ _ Hf H2)
    as (Hmode & Hsingle & Hres & Hcond & Hms).
  set (include2 := bool_decide (mode2 = "whitelist")) in *.
  assert (Hsegs : selected_segments d1 paths2 = selected_segments d paths2).
  { unfold selected_segments. rewrite Htree1. by apply omap_ext_fun. }
  assert (Hunited : united_segments_of d1 paths2 = united_segments_of d paths2)
    by (unfold united_segments_of; by rewrite Hsegs).
  assert (Hmap : forall v,
            map (FileInfo.set_selected v) (DownloadInfo.files d1)
            = map (FileInfo.set_selected v) (DownloadInfo.files d)).
  { intros v. rewrite Hd1. simpl. apply list_eq. intros n.
    change (map (FileInfo.set_selected v)) with
      (fmap (M := list) (FileInfo.set_selected v)).
    rewrite !list_lookup_fmap, mark_files_lookup.
    change (map (FileInfo.set_selected
                   (negb (bool_decide (mode1 = "whitelist")))))
      with (fmap (M := list)
              (FileInfo.set_selected
                 (negb (bool_decide (mode1 = "whitelist"))))).
    rewrite list_lookup_fmap.
    destruct (DownloadInfo.files d !! n); [| done]. simpl.
    by destruct (bool_decide (n ∈ _)). }
  assert (Hlenf : length (DownloadInfo.files d1) = length (DownloadInfo.files d)).
  { rewrite <- (length_map (FileInfo.set_selected true) (DownloadInfo.files d1)).
    by rewrite Hmap, length_map. }
  destruct (mark_segments_any _ _ _ _ _ _
              (DownloadInfo.set_all_pieces (negb include2)
                 (DownloadInfo._pieces d) heap1) Hms) as [heap12 Hms1].
  assert (H12 : DownloadInfo.select_files heap1 d1 paths2 mode2
                = Returned
                    (heap12,
                     DownloadInfo.with_files d1
                       (mark_files include2
                          (reached_files (DownloadInfo._file_tree d1) paths2)
                          (map (FileInfo.set_selected (negb include2))
                             (DownloadInfo.files d1))))).
  { apply select_files_intro; try done.
    - rewrite (is_single_file_by_paths d1 d); [done |].
      rewrite Hd1. simpl. by apply map_mark_files.
    - by rewrite Htree1.
    - fold include2. by rewrite Hsegs, Hlenf.
    - fold include2. by rewrite Hpl1, Hpieces1, Hunited. }
  eexists _, _. split; [exact H12 |]. split.
  { simpl. by rewrite Htree1, Hmap, Hd2. }
  intros k.
  destruct (select_files_returned _ _ _ _ _ _ Hp1 Hf1
              ltac:(by rewrite Hpl1) H12) as (_ & _ & _ & _ & Hflags12).
  destruct (piece_at heap d k) as [p |] eqn:Hk.
  - rewrite (Hflags12 k _ (Hflags1 k p Hk)), (Hflags2 k p Hk).
    by rewrite Hpl1, Hunited.
  - assert (Hnone : DownloadInfo._pieces d !! k = None)
      by (by apply (piece_at_None_pieces heap d)).
    transitivity (@None PieceInfo.t).
    + unfold piece_at. simpl. by rewrite Hpieces1, Hnone.
    + symmetry. unfold piece_at. by rewrite Hpieces2, Hnone.
Qed.

Lemma select_files_replaces_selection_witness :
  exists heap12 d12,
    DownloadInfo.select_files after_blacklist_x.1 after_blacklist_x.2
      [["a"; "x"]] "whitelist"
    = Returned (heap12, d12)
    /\ DownloadInfo.files d12 = DownloadInfo.files after_whitelist_x.2
    /\ forall k, piece_at heap12 d12 k
                 = piece_at after_whitelist_x.1 after_whitelist_x.2 k.
Proof.
  assert (Hpl : (0 < DownloadInfo.piece_length sample_transfer)%Z)
    by (simpl; lia).
  assert (H1 : DownloadInfo.select_files sample_heap sample_transfer
                 [["a"; "x"]] "blacklist"
               = Returned (after_blacklist_x.1, after_blacklist_x.2))
    by (vm_compute; reflexivity).
  assert (H2 : DownloadInfo.select_files sample_heap sample_transfer
                 [["a"; "x"]] "whitelist"
               = Returned (after_whitelist_x.1, after_whitelist_x.2))
    by (vm_compute; reflexivity).
  exact (select_files_replaces_selection sample_heap sample_transfer
           [["a"; "x"]] [["a"; "x"]] "blacklist" "whitelist" _ _ _ _
           sample_pieces_wf sample_files_wf Hpl H1 H2).
Defined.

(** ** The file tree: insertion and lookup *)

Lemma dict_get_set_eq {V} (d : list (string * V)) k v :
  dict_get (dict_set d k v) k = Some v.
Proof.
  induction d as [| [k' v'] d IH]; simpl.
  - by rewrite bool_decide_eq_true_2.
  - case_bool_decide as Hk; simpl.
    + by rewrite bool_decide_eq_true_2.
    + by rewrite bool_decide_eq_false_2.
Qed.

Lemma dict_get_set_ne {V} (d : list (string * V)) k k' v :
  k <> k' -> dict_get (dict_set d k v) k' = dict_get d k'.
Proof.
  intros Hne. induction d as [| [k0 v0] d IH]; simpl.
  - by rewrite bool_decide_eq_false_2.
  - case_bool_decide as Hk; simpl.
    + subst k0. by rewrite !bool_decide_eq_false_2.
    + case_bool_decide; [done | exact IH].
Qed.

Lemma tree_insert_last node name file :
  tree_insert node [name] file
  = match node with
    | Directory entries =>
        inr (Directory (dict_set entries name (FileLeaf file)))
    | FileLeaf _ => inl TypeError
    end.
Proof. reflexivity. Qed.

Lemma tree_insert_step node elem e2 rest file :
  tree_insert node (elem :: e2 :: rest) file
  = match node with
    | Directory entries =>
        match tree_insert (default (Directory []) (dict_get entries elem))
                (e2 :: rest) file with
        | inl e => inl e
        | inr child' => inr (Directory (dict_set entries elem child'))
        end
    | FileLeaf _ => inl AttributeError
    end.
Proof. reflexivity. Qed.

Lemma tree_insert_errors node path file e :
  tree_insert node path file = inl e -> e = TypeError \/ e = AttributeError.
Proof.
  revert node. induction path as [| elem [| e2 rest] IH]; intros node H.
  - done.
  - rewrite tree_insert_last in H. destruct node; [left; congruence | done].
  - rewrite tree_insert_step in H. destruct node as [| entries];
      [right; congruence |].
    destruct (tree_insert _ (e2 :: rest) file) as [e' |] eqn:Hrec; [| done].
    injection H as <-. by eapply IH.
Qed.

(** Insert, then look up the same path: the file is there. *)
Lemma tree_insert_lookup node path file node' :
  path <> [] ->
  tree_insert node path file = inr node' ->
  _get_file_tree_node node' path = inr (FileLeaf file).
Proof.
  revert node node'. induction path as [| elem [| e2 rest] IH];
    intros node node' Hne H; [done | |].
  - rewrite tree_insert_last in H. destruct node as [| entries]; [done |].
    injection H as <-. simpl. by rewrite dict_get_set_eq.
  - rewrite tree_insert_step in H. destruct node as [| entries]; [done |].
    destruct (tree_insert _ (e2 :: rest) file) as [| child'] eqn:Hrec; [done |].
    injection H as <-.
    change (_get_file_tree_node (Directory (dict_set entries elem child'))
              (elem :: e2 :: rest))
      with (match dict_get (dict_set entries elem child') elem with
            | Some child => _get_file_tree_node child (e2 :: rest)
            | None => inl ValueError
            end).
    rewrite dict_get_set_eq. by eapply IH.
Qed.

Lemma get_file_tree_node_empty_dir q :
  q <> [] -> _get_file_tree_node (Directory []) q = inl ValueError.
Proof. by destruct q. Qed.

(** Insert, then look up a path that neither extends nor is extended by
    the inserted one: nothing has changed. *)
Lemma tree_insert_other node path file node' q :
  tree_insert node path file = inr node' ->
  ~ path `prefix_of` q -> ~ q `prefix_of` path ->
  _get_file_tree_node node' q = _get_file_tree_node node q.
Proof.
  revert node node' q. induction path as [| elem [| e2 rest] IH];
    intros node node' q H Hpq Hqp.
  - exfalso. apply Hpq. apply prefix_nil.
  - rewrite tree_insert_last in H. destruct node as [| entries]; [done |].
    injection H as <-. destruct q as [| k q']; [exfalso; apply Hqp, prefix_nil |].
    simpl. rewrite dict_get_set_ne; [done |].
    intros ->. apply Hpq. apply prefix_cons, prefix_nil.
  - rewrite tree_insert_step in H. destruct node as [| entries]; [done |].
    destruct (tree_insert _ (e2 :: rest) file) as [| child'] eqn:Hrec; [done |].
    injection H as <-. destruct q as [| k q']; [exfalso; apply Hqp, prefix_nil |].
    simpl. destruct (decide (elem = k)) as [<- | Hne].
    + rewrite dict_get_set_eq.
      rewrite (IH _ _ q' Hrec).
      * destruct (dict_get entries elem) as [child |]; [done |]. simpl.
        apply get_file_tree_node_empty_dir. intros ->.
        apply Hqp. apply prefix_cons, prefix_nil.
      * intros Hp. apply Hpq. by apply prefix_cons.
      * intros Hp. apply Hqp. by apply prefix_cons.
    + by rewrite dict_get_set_ne.
Qed.

(** After an insertion, every strict prefix of the path is a directory. *)
Lemma tree_insert_prefix_dir node path file node' q :
  tree_insert node path file = inr node' ->
  q `prefix_of` path -> q <> path ->
  exists entries, _get_file_tree_node node' q = inr (Directory entries).
Proof.
  revert node node' q. induction path as [| elem [| e2 rest] IH];
    intros node node' q H Hq Hne.
  - apply prefix_nil_inv in Hq. done.
  - rewrite tree_insert_last in H. destruct node as [| entries]; [done |].
    injection H as <-. destruct q as [| k q']; [by eexists |].
    apply prefix_cons_inv_2 in Hq as Hq'. apply prefix_nil_inv in Hq'.
    apply prefix_cons_inv_1 in Hq. by subst.
  - rewrite tree_insert_step in H. destruct node as [| entries]; [done |].
    destruct (tree_insert _ (e2 :: rest) file) as [| child'] eqn:Hrec; [done |].
    injection H as <-. destruct q as [| k q']; [by eexists |].
    pose proof (prefix_cons_inv_1 _ _ _ _ Hq) as ->.
    apply prefix_cons_inv_2 in Hq. simpl. rewrite dict_get_set_eq.
    eapply IH; [exact Hrec | done | congruence].
Qed.

(** Below a file there is nothing to look up. *)
Lemma get_file_tree_node_below_leaf node p j r :
  _get_file_tree_node node p = inr (FileLeaf j) -> r <> [] ->
  _get_file_tree_node node (p ++ r) = inl TypeError.
Proof.
  revert node. induction p as [| elem p IH]; intros node H Hr; simpl in *.
  - injection H as ->. by destruct r.
  - destruct node as [| entries]; [done |].
    destruct (dict_get entries elem); [by apply IH | done].
Qed.

(** Nor can anything be inserted below a file. *)
Lemma tree_insert_below_leaf node p j r file :
  _get_file_tree_node node p = inr (FileLeaf j) -> r <> [] ->
  exists e, tree_insert node (p ++ r) file = inl e
            /\ (e = TypeError \/ e = AttributeError).
Proof.
  revert node. induction p as [| elem p IH]; intros node H Hr.
  - simpl in H. injection H as ->. simpl.
    destruct r as [| k [| k2 r]]; [done | |]; eexists; split; eauto.
  - simpl in H. destruct node as [| entries]; [done |].
    destruct (dict_get entries elem) as [child |] eqn:Hc; [| done].
    destruct (IH child H Hr) as (e & He & Hkind). exists e. split; [| done].
    destruct (p ++ r) as [| e2 rest] eqn:Hpr.
    { destruct p, r; done. }
    change ((elem :: p) ++ r) with (elem :: (p ++ r)). rewrite Hpr.
    rewrite tree_insert_step, Hc. simpl (default _ _). by rewrite He.
Qed.

(** An insertion succeeds when no strict prefix of the path is a file. *)
Lemma tree_insert_ok node path file :
  path <> [] ->
  (forall q j, q `prefix_of` path -> q <> path ->
     _get_file_tree_node node q <> inr (FileLeaf j)) ->
  exists node', tree_insert node path file = inr node'.
Proof.
  revert node. induction path as [| elem [| e2 rest] IH]; intros node Hne Hfree;
    [done | |].
  - rewrite tree_insert_last. destruct node as [j | entries]; [| by eexists].
    exfalso. by apply (Hfree [] j (prefix_nil _)).
  - rewrite tree_insert_step. destruct node as [j | entries].
    { exfalso. by apply (Hfree [] j (prefix_nil _)). }
    destruct (IH (default (Directory []) (dict_get entries elem)))
      as [child' ->]; [done | | by eexists].
    intros q j Hq Hqne Hleaf.
    apply (Hfree (elem :: q) j); [by apply prefix_cons | congruence |].
    simpl. destruct (dict_get entries elem) as [child |]; [done |].
    simpl in Hleaf. by destruct q.
Qed.

Lemma create_file_tree_insert item index tree :
  FileInfo._path item <> [] ->
  match FileInfo._path item with
  | [] => inr (FileLeaf index)
  | _ => tree_insert tree (FileInfo._path item) index
  end = tree_insert tree (FileInfo._path item) index.
Proof. by destruct (FileInfo._path item). Qed.

Lemma prefix_free_cons p ps :
  prefix_free (p :: ps) ->
  prefix_free ps
  /\ forall q, q ∈ ps -> ~ p `prefix_of` q /\ ~ q `prefix_of` p.
Proof.
  intros H. split.
  - intros i j a b Ha Hb Hij. apply (H (S i) (S j) a b); [done | done | lia].
  - intros q Hq. apply list_elem_of_lookup in Hq as [k Hk]. split.
    + by apply (H 0 (S k) p q).
    + by apply (H (S k) 0 q p).
Qed.

Lemma create_file_tree_prefix_free files index offset tree :
  Forall (fun f => FileInfo._path f <> []) files ->
  prefix_free (map FileInfo._path files) ->
  (forall q j, _get_file_tree_node tree q = inr (FileLeaf j) ->
     forall f, f ∈ files ->
       ~ q `prefix_of` FileInfo._path f /\ ~ FileInfo._path f `prefix_of` q) ->
  exists tree',
    _create_file_tree files index offset tree
    = inr (assign_offsets offset files, tree')
    /\ (forall k f, files !! k = Some f ->
          _get_file_tree_node tree' (FileInfo._path f)
          = inr (FileLeaf (index + k)))
    /\ (forall q,
          (forall f, f ∈ files ->
             ~ q `prefix_of` FileInfo._path f
             /\ ~ FileInfo._path f `prefix_of` q) ->
          _get_file_tree_node tree' q = _get_file_tree_node tree q).
Proof.
  intros Hne. revert index offset tree.
  induction Hne as [| f rest Hf _ IH]; intros index offset tree Hpf Hleaves.
  - exists tree. by repeat split.
  - simpl in Hpf. apply prefix_free_cons in Hpf as [Hpf Hhead].
    assert (Hrest : forall g, g ∈ rest ->
              ~ FileInfo._path f `prefix_of` FileInfo._path g
              /\ ~ FileInfo._path g `prefix_of` FileInfo._path f).
    { intros g Hg. apply Hhead. by apply list_elem_of_fmap_2. }
    destruct (tree_insert_ok tree (FileInfo._path f) index Hf) as [tree1 Hins].
    { intros q j Hq _ Hleaf.
      destruct (Hleaves q j Hleaf f) as [Hno _]; [by left | done]. }
    pose proof (tree_insert_lookup _ _ _ _ Hf Hins) as Hhere.
    destruct (IH (S index) (offset + FileInfo._length f)%Z tree1 Hpf)
      as (tree' & Hcreate & Hlook & Hframe).
    { intros q j Hleaf g Hg.
      destruct (decide (FileInfo._path f `prefix_of` q)) as [Hfq | Hfq],
        (decide (q `prefix_of` FileInfo._path f)) as [Hqf | Hqf].
      - assert (q = FileInfo._path f) as -> by (by apply (anti_symm prefix)).
        destruct (Hrest g Hg). by split.
      - exfalso. destruct Hfq as [r ->].
        rewrite (get_file_tree_node_below_leaf _ _ _ r Hhere) in Hleaf; [done |].
        intros ->. apply Hqf. by rewrite app_nil_r.
      - exfalso.
        destruct (tree_insert_prefix_dir _ _ _ _ q Hins Hqf) as [es Hdir];
          [by intros -> | congruence].
      - rewrite (tree_insert_other _ _ _ _ q Hins Hfq Hqf) in Hleaf.
        apply (Hleaves q j Hleaf). by right. }
    exists tree'. split; [| split].
    + rewrite create_file_tree_cons, create_file_tree_insert, Hins, Hcreate;
        done.
    + intros [| k] g Hg; simpl in Hg.
      * injection Hg as <-. rewrite Hframe.
        -- by rewrite Nat.add_0_r.
        -- intros g Hg. destruct (Hrest g Hg). by split.
      * rewrite (Hlook k g Hg). do 2 f_equal. lia.
    + intros q Hq. rewrite Hframe.
      * destruct (Hq f) as [Hqf Hfq]; [by left |].
        by apply (tree_insert_other _ _ _ _ q Hins).
      * intros g Hg. apply Hq. by right.
Qed.

(** X13: when no file has an empty path and no path is a prefix of
    another, building the file tree succeeds and every file is found
    under its own path: [_get_file_tree_node] returns that very file, and
    a selection by that path reaches it and nothing else.  So it is for the
    tree of any transfer [__init__] returns for these files. *)
Theorem file_tree_finds_every_file (files : list FileInfo.t) :
  Forall (fun f => FileInfo._path f <> []) files ->
  prefix_free (map FileInfo._path files) ->
  exists tree,
    _create_file_tree files 0 0 (Directory [])
    = inr (assign_offsets 0 files, tree)
    /\ (forall i f, files !! i = Some f ->
          _get_file_tree_node tree (FileInfo._path f) = inr (FileLeaf i)
          /\ reached_files tree [FileInfo._path f] = [i])
    /\ (forall heap ih pl hashes name priv heap' d,
          DownloadInfo.__init__ heap ih pl hashes name files priv
          = inr (heap', d) ->
          DownloadInfo._file_tree d = tree).
Proof.
  intros Hne Hpf.
  destruct (create_file_tree_prefix_free files 0 0%Z (Directory []) Hne Hpf)
    as (tree & Hcreate & Hlook & _).
  { intros q j Hleaf. destruct q; done. }
  exists tree. split; [done |]. split.
  - intros i f Hf. pose proof (Hlook i f Hf) as Hi. simpl in Hi.
    split; [done |]. unfold reached_files. simpl. by rewrite Hi.
  - intros heap ih pl hashes name priv heap' d Hinit.
    destruct (init_inv _ _ _ _ _ _ _ _ _ Hinit)
      as (tree0 & Hcreate0 & _ & _ & _ & _ & _ & Htree & _).
    congruence.
Qed.

Lemma sample_paths_prefix_free :
  prefix_free (map FileInfo._path sample_files).
Proof.
  intros i j p q Hi Hj Hij [k Hk].
  destruct i as [| [| [| i]]], j as [| [| [| j]]]; simpl in Hi, Hj;
    simplify_eq; done.
Qed.

Lemma file_tree_finds_every_file_witness :
  _get_file_tree_node (DownloadInfo._file_tree sample_transfer) ["a"; "y"]
  = inr (FileLeaf 1).
Proof.
  assert (Hne : Forall (fun f => FileInfo._path f <> []) sample_files)
    by (repeat constructor; done).
  destruct (file_tree_finds_every_file sample_files Hne
              sample_paths_prefix_free) as (tree & _ & Hlook & Htree).
  rewrite (Htree [] [] 1024%Z sample_hashes "sample" false sample_heap
             sample_transfer eq_refl).
  exact (proj1 (Hlook 1 (FileInfo.__init__ 1000 ["a"; "y"] None) eq_refl)).
Defined.

Lemma create_file_tree_below_file pre f g post r index offset tree :
  FileInfo._path g = FileInfo._path f ++ r -> r <> [] ->
  exists e,
    _create_file_tree (pre ++ f :: g :: post) index offset tree = inl e
    /\ (e = TypeError \/ e = AttributeError).
Proof.
  intros Hg Hr. revert index offset tree.
  induction pre as [| a pre IH]; intros index offset tree.
  - simpl app. rewrite create_file_tree_cons.
    destruct (match FileInfo._path f with
              | [] => inr (FileLeaf index)
              | _ => tree_insert tree (FileInfo._path f) index
              end) as [e | tree1] eqn:Hins.
    { exists e. split; [done |].
      destruct (FileInfo._path f); [done |]. by eapply tree_insert_errors. }
    assert (Hleaf : _get_file_tree_node tree1 (FileInfo._path f)
                    = inr (FileLeaf index)).
    { destruct (FileInfo._path f) as [| s l] eqn:Hpath.
      - by injection Hins as <-.
      - rewrite <- Hpath in *. apply (tree_insert_lookup tree); [| done].
        by rewrite Hpath. }
    rewrite create_file_tree_cons, create_file_tree_insert
      by (rewrite Hg; destruct (FileInfo._path f), r; done).
    rewrite Hg.
    destruct (tree_insert_below_leaf tree1 _ index r (S index) Hleaf Hr)
      as (e & -> & Hkind).
    by exists e.
  - simpl app. rewrite create_file_tree_cons.
    destruct (match FileInfo._path a with
              | [] => inr (FileLeaf index)
              | _ => tree_insert tree (FileInfo._path a) index
              end) as [e | tree1] eqn:Hins.
    { exists e. split; [done |].
      destruct (FileInfo._path a); [done |]. by eapply tree_insert_errors. }
    destruct (IH (S index) (offset + FileInfo._length a)%Z tree1)
      as (e & -> & Hkind).
    by exists e.
Qed.

(** X14: a file listed right after a file whose path is a strict prefix of
    its own (a file "inside" a file, or any file after one with an empty
    path) makes [__init__] raise a [TypeError] or an [AttributeError],
    whatever the other arguments. *)
Theorem file_below_file_is_rejected
    heap ih pl hashes name priv
    (pre post : list FileInfo.t) (f g : FileInfo.t) (r : list string) :
  FileInfo._path g = FileInfo._path f ++ r -> r <> [] ->
  exists e,
    DownloadInfo.__init__ heap ih pl hashes name (pre ++ f :: g :: post) priv
    = inl e
    /\ (e = TypeError \/ e = AttributeError).
Proof.
  intros Hg Hr.
  destruct (create_file_tree_below_file pre f g post r 0 0%Z (Directory [])
              Hg Hr) as (e & He & Hkind).
  exists e. split; [| done]. unfold DownloadInfo.__init__. by rewrite He.
Qed.

Lemma file_below_file_is_rejected_witness :
  exists e,
    DownloadInfo.__init__ [] [] 1024 sample_hashes "sample"
      ([FileInfo.__init__ 500 ["b"] None]
       ++ FileInfo.__init__ 1500 [] None
       :: FileInfo.__init__ 1000 ["a"; "y"] None :: [])
      false
    = inl e
    /\ (e = TypeError \/ e = AttributeError).
Proof.
  apply (file_below_file_is_rejected [] [] 1024 sample_hashes "sample" false
           [FileInfo.__init__ 500 ["b"] None] []
           (FileInfo.__init__ 1500 [] None)
           (FileInfo.__init__ 1000 ["a"; "y"] None) ["a"; "y"]);
    [reflexivity | discriminate].
Defined.

(** ** Peers as set members and dictionary keys *)

Lemma Peer_eq_iff (p q : Peer.t) :
  Peer.__eq__ p q = true
  <-> Peer._host p = Peer._host q /\ Peer._port p = Peer._port q.
Proof.
  unfold Peer.__eq__. by rewrite andb_true_iff, !bool_decide_eq_true.
Qed.

(** X15: [Peer.__eq__] is an equivalence relation that looks at the host
    and the port only, never at [peer_id]; equal peers have the same hash
    and are filed under the same key; so a set of peers that holds a peer
    is not changed by adding an equal one, and after an addition the set
    holds a peer equal to the one added. *)
Theorem peer_equality (pair_hash : string * Z -> Z) (p q r : Peer.t)
    (s : list Peer.t) :
  Peer.__eq__ p p = true
  /\ Peer.__eq__ p q = Peer.__eq__ q p
  /\ (Peer.__eq__ p q = true -> Peer.__eq__ q r = true ->
      Peer.__eq__ p r = true)
  /\ (Peer.__eq__ p q = true <->
      Peer._host p = Peer._host q /\ Peer._port p = Peer._port q)
  /\ (Peer.__eq__ p q = true ->
      Peer___hash__ pair_hash p = Peer___hash__ pair_hash q
      /\ peer_key p = peer_key q)
  /\ (exists x, x ∈ peer_set_add s p /\ Peer.__eq__ x p = true)
  /\ (Peer.__eq__ p q = true ->
      peer_set_add (peer_set_add s p) q = peer_set_add s p).
Proof.
  split; [by apply Peer_eq_iff |].
  split.
  { unfold Peer.__eq__. f_equal; apply bool_decide_ext; split; congruence. }
  split.
  { rewrite !Peer_eq_iff. intros [-> ->] [-> ->]. done. }
  split; [apply Peer_eq_iff |].
  split.
  { intros [Hh Hp]%Peer_eq_iff.
    unfold Peer___hash__, peer_key. by rewrite Hh, Hp. }
  assert (Hmem : existsb (fun x => Peer.__eq__ x p) (peer_set_add s p) = true).
  { unfold peer_set_add.
    destruct (existsb (fun x => Peer.__eq__ x p) s) eqn:He; [done |].
    rewrite existsb_app. simpl.
    by rewrite (proj2 (Peer_eq_iff p p)), orb_true_r. }
  split.
  - apply existsb_exists in Hmem as (x & Hx & Hxp).
    exists x. split; [by apply list_elem_of_In | done].
  - intros Hpq. unfold peer_set_add at 1.
    assert (Hq : existsb (fun x => Peer.__eq__ x q) (peer_set_add s p) = true).
    { apply existsb_exists in Hmem as (x & Hx & Hxp).
      apply existsb_exists. exists x. split; [done |].
      apply Peer_eq_iff in Hxp as [Hh1 Hp1]. apply Peer_eq_iff in Hpq as [Hh2 Hp2].
      apply Peer_eq_iff. split; congruence. }
    by rewrite Hq.
Qed.

Lemma peer_equality_witness :
  Peer___hash__ (fun hp => hp.2) peer_a
  = Peer___hash__ (fun hp => hp.2)
      {| Peer._host := "10.0.0.1"; Peer._port := 6881;
         Peer.peer_id := Some [Byte.x2d] |}
  /\ peer_set_add (peer_set_add [peer_b] peer_a)
       {| Peer._host := "10.0.0.1"; Peer._port := 6881;
          Peer.peer_id := Some [Byte.x2d] |}
     = peer_set_add [peer_b] peer_a.
Proof.
  destruct (peer_equality (fun hp => hp.2) peer_a
              {| Peer._host := "10.0.0.1"; Peer._port := 6881;
                 Peer.peer_id := Some [Byte.x2d] |} peer_a [peer_b])
    as (_ & _ & _ & _ & Hh & _ & Hs).
  split; [exact (proj1 (Hh eq_refl)) | exact (Hs eq_refl)].
Defined.

(** ** Session statistics *)

Lemma record_events_counters {time} (st : SessionStatistics.t time)
    (events : list (transfer_event time)) :
  SessionStatistics._downloaded_per_session (record_events st events)
  = (SessionStatistics._downloaded_per_session st + downloaded_bytes events)%Z
  /\ SessionStatistics._uploaded_per_session (record_events st events)
     = (SessionStatistics._uploaded_per_session st + uploaded_bytes events)%Z
  /\ SessionStatistics._total_downloaded (record_events st events)
     = (SessionStatistics._total_downloaded st + downloaded_bytes events)%Z
  /\ SessionStatistics._total_uploaded (record_events st events)
     = (SessionStatistics._total_uploaded st + uploaded_bytes events)%Z.
Proof.
  unfold record_events. revert st.
  induction events as [| ev rest IH]; intros st; simpl.
  - repeat split; lia.
  - destruct (IH (record_event st ev)) as (H1 & H2 & H3 & H4).
    rewrite H1, H2, H3, H4. destruct ev; simpl; repeat split; lia.
Qed.

(** X16: during a session that starts from [SessionStatistics(prev)], the
    per-session counters are the sums of the sizes recorded by
    [add_downloaded] and [add_uploaded], and the totals are those of the
    previous session plus these sums (zero plus these sums without a
    previous session); [reset_stats] then starts a session with per-session
    counters at zero, no peer activity, and the totals carried over. *)
Theorem session_counters_accumulate {time}
    (prev : option (SessionStatistics.t time))
    (events : list (transfer_event time)) (recent : time -> bool) :
  let s := record_events (SessionStatistics.__init__ prev) events in
  let carried_down :=
    match prev with
    | Some st => SessionStatistics._total_downloaded st
    | None => 0%Z
    end in
  let carried_up :=
    match prev with
    | Some st => SessionStatistics._total_uploaded st
    | None => 0%Z
    end in
  SessionStatistics._downloaded_per_session s = downloaded_bytes events
  /\ SessionStatistics._uploaded_per_session s = uploaded_bytes events
  /\ SessionStatistics._total_downloaded s
     = (carried_down + downloaded_bytes events)%Z
  /\ SessionStatistics._total_uploaded s
     = (carried_up + uploaded_bytes events)%Z
  /\ SessionStatistics._downloaded_per_session (reset_stats s) = 0%Z
  /\ SessionStatistics._uploaded_per_session (reset_stats s) = 0%Z
  /\ SessionStatistics._total_downloaded (reset_stats s)
     = SessionStatistics._total_downloaded s
  /\ SessionStatistics._total_uploaded (reset_stats s)
     = SessionStatistics._total_uploaded s
  /\ SessionStatistics.downloading_peer_count recent (reset_stats s) = 0
  /\ SessionStatistics.uploading_peer_count recent (reset_stats s) = 0.
Proof.
  intros s carried_down carried_up.
  destruct (record_events_counters (SessionStatistics.__init__ prev) events)
    as (H1 & H2 & H3 & H4).
  fold s in H1, H2, H3, H4.
  split; [by rewrite H1 |]. split; [by rewrite H2 |].
  split; [by rewrite H3 |]. split; [by rewrite H4 |].
  repeat split.
Qed.

Lemma record_events_app {time} (st : SessionStatistics.t time) ev1 ev2 :
  record_events st (ev1 ++ ev2) = record_events (record_events st ev1) ev2.
Proof. unfold record_events. apply foldl_app. Qed.

Lemma record_events_other_downloads {time} (st : SessionStatistics.t time)
    (events : list (transfer_event time)) (key : string * Z) :
  Forall (fun ev => is_download_from key ev = false) events ->
  SessionStatistics._peer_last_download (record_events st events) !! key
  = SessionStatistics._peer_last_download st !! key.
Proof.
  intros H. revert st. unfold record_events.
  induction H as [| ev rest Hev _ IH]; intros st; [done |].
  simpl. rewrite IH. destruct ev as [peer now size | peer now size]; [| done].
  simpl in *. apply bool_decide_eq_false in Hev.
  by rewrite lookup_insert_ne.
Qed.

Lemma record_events_download_size {time} (st : SessionStatistics.t time)
    (events : list (transfer_event time)) :
  size (SessionStatistics._peer_last_download (record_events st events))
  <= size (SessionStatistics._peer_last_download st) + download_count events.
Proof.
  revert st. unfold record_events, download_count.
  induction events as [| ev rest IH]; intros st; simpl; [lia |].
  specialize (IH (record_event st ev)). rewrite filter_cons.
  destruct ev as [peer now size | peer now size]; simpl in *.
  - rewrite map_size_insert in IH.
    destruct (SessionStatistics._peer_last_download st !! peer_key peer);
      simpl in *; lia.
  - lia.
Qed.

(** X17: the time kept for a peer is that of its last download, whatever
    came before; a peer that never downloaded has none; and
    [downloading_peer_count] never exceeds the number of downloads
    recorded in the session, however the time stamps compare. *)
Theorem peer_activity_tracking {time}
    (prev : option (SessionStatistics.t time))
    (before after : list (transfer_event time))
    (p q : Peer.t) (now : time) (size : Z) (recent : time -> bool) :
  let events := before ++ Downloaded p now size :: after in
  let s := record_events (SessionStatistics.__init__ prev) events in
  (Forall (fun ev => is_download_from (peer_key p) ev = false) after ->
   SessionStatistics._peer_last_download s !! peer_key p = Some now)
  /\ (Forall (fun ev => is_download_from (peer_key q) ev = false) events ->
      SessionStatistics._peer_last_download s !! peer_key q = None)
  /\ SessionStatistics.downloading_peer_count recent s <= download_count events.
Proof.
  intros events s. split; [| split].
  - intros Hafter. unfold s, events.
    rewrite record_events_app. unfold record_events at 1. simpl.
    fold (record_events
            (SessionStatistics.add_downloaded
               (record_events (SessionStatistics.__init__ prev) before)
               p now size) after).
    rewrite record_events_other_downloads by done. simpl.
    apply lookup_insert_eq.
  - intros Hnone. unfold s. by rewrite record_events_other_downloads.
  - unfold SessionStatistics.downloading_peer_count,
      SessionStatistics._get_actual_peer_count.
    etrans; [apply length_filter |]. rewrite length_map_to_list.
    etrans; [apply record_events_download_size |].
    simpl. by rewrite map_size_empty.
Qed.

Lemma peer_activity_tracking_witness :
  SessionStatistics._peer_last_download
    (record_events (SessionStatistics.__init__ None)
       ([Downloaded peer_a 3%Z 100%Z; Uploaded peer_b 4%Z 7%Z]
        ++ Downloaded peer_a 5%Z 16384%Z :: [Downloaded peer_b 9%Z 1%Z]))
  !! peer_key peer_a
  = Some 5%Z.
Proof.
  refine (proj1 (peer_activity_tracking None
                   [Downloaded peer_a 3%Z 100%Z; Uploaded peer_b 4%Z 7%Z]
                   [Downloaded peer_b 9%Z 1%Z] peer_a peer_b 5%Z 16384%Z
                   (fun t => (6 <=? t)%Z)) _).
  repeat constructor.
Defined.

(** ** Peers in compact form *)

Lemma decimal_of_byte_no_dot (b : Byte.byte) :
  has_no_dot (decimal_of_byte b) = true.
Proof. by destruct b. Qed.

Lemma read_decimal_of_byte (b : Byte.byte) :
  read_decimal (decimal_of_byte b) = Byte.to_N b.
Proof. by destruct b. Qed.

Lemma decimal_of_byte_inj (b1 b2 : Byte.byte) :
  decimal_of_byte b1 = decimal_of_byte b2 -> b1 = b2.
Proof.
  intros H. apply (f_equal read_decimal) in H.
  rewrite !read_decimal_of_byte in H.
  apply (f_equal Byte.of_N) in H. rewrite !Byte.of_to_N in H. congruence.
Qed.

Lemma dot_separates (s1 s2 t1 t2 : string) :
  has_no_dot s1 = true -> has_no_dot s2 = true ->
  s1 +:+ "." +:+ t1 = s2 +:+ "." +:+ t2 ->
  s1 = s2 /\ t1 = t2.
Proof.
  assert (Hdot : forall t, "." +:+ t = String (Ascii.ascii_of_N 46) t) by done.
  rewrite !Hdot. clear Hdot. unfold has_no_dot.
  revert s2. induction s1 as [| c s1 IH]; intros [| c2 s2] H1 H2 Heq;
    simpl in *.
  - by injection Heq as ->.
  - injection Heq as <- _. done.
  - injection Heq as -> _. done.
  - injection Heq as -> Heq.
    apply andb_true_iff in H1 as [_ H1]. apply andb_true_iff in H2 as [_ H2].
    destruct (IH s2 H1 H2 Heq) as [-> ->]. done.
Qed.

Lemma inet_ntoa_inj a1 b1 c1 d1 a2 b2 c2 d2 :
  inet_ntoa a1 b1 c1 d1 = inet_ntoa a2 b2 c2 d2 ->
  a1 = a2 /\ b1 = b2 /\ c1 = c2 /\ d1 = d2.
Proof.
  unfold inet_ntoa. intros H.
  apply dot_separates in H as [Ha H]; try apply decimal_of_byte_no_dot.
  apply dot_separates in H as [Hb H]; try apply decimal_of_byte_no_dot.
  apply dot_separates in H as [Hc Hd]; try apply decimal_of_byte_no_dot.
  by repeat split; apply decimal_of_byte_inj.
Qed.

Lemma from_compact_form_inv (data : list Byte.byte) (p : Peer.t) :
  from_compact_form data = inr p ->
  exists a b c d hi lo,
    data = [a; b; c; d; hi; lo]
    /\ p = {| Peer._host := inet_ntoa a b c d;
              Peer._port := (256 * Z.of_N (Byte.to_N hi)
                             + Z.of_N (Byte.to_N lo))%Z;
              Peer.peer_id := None |}.
Proof.
  destruct data as [| a [| b [| c [| d [| hi [| lo [| x rest]]]]]]]; try done.
  intros [= <-]. by exists a, b, c, d, hi, lo.
Qed.

Lemma byte_range (b : Byte.byte) : (0 <= Z.of_N (Byte.to_N b) < 256)%Z.
Proof. pose proof (Byte.to_N_bounded b). lia. Qed.

Lemma byte_of_Z_inj (b1 b2 : Byte.byte) :
  Z.of_N (Byte.to_N b1) = Z.of_N (Byte.to_N b2) -> b1 = b2.
Proof.
  intros H%N2Z.inj. apply (f_equal Byte.of_N) in H.
  rewrite !Byte.of_to_N in H. congruence.
Qed.

(** X18: [Peer.from_compact_form] returns exactly on data of six bytes and
    raises [struct.error] on any other; the peer it returns has a port in
    0..65535 and no peer id; and peers decoded from different data are
    never equal, so the compact form loses nothing of an address. *)
Theorem compact_form_decoding (data1 data2 : list Byte.byte) :
  (length data1 <> 6 -> from_compact_form data1 = inl struct_error)
  /\ (length data1 = 6 -> exists p,
        from_compact_form data1 = inr p
        /\ (0 <= Peer._port p < 65536)%Z
        /\ Peer.peer_id p = None)
  /\ (forall p1 p2,
        from_compact_form data1 = inr p1 ->
        from_compact_form data2 = inr p2 ->
        Peer.__eq__ p1 p2 = true -> data1 = data2).
Proof.
  split; [| split].
  - destruct data1 as [| a [| b [| c [| d [| hi [| lo [| x rest]]]]]]];
      try done.
  - destruct data1 as [| a [| b [| c [| d [| hi [| lo [| x rest]]]]]]];
      try done.
    intros _. eexists. split; [reflexivity |]. split; [| done].
    cbn [Peer._port].
    pose proof (byte_range hi). pose proof (byte_range lo). lia.
  - intros p1 p2 H1 H2 Heq.
    apply from_compact_form_inv in H1
      as (a1 & b1 & c1 & d1 & hi1 & lo1 & -> & ->).
    apply from_compact_form_inv in H2
      as (a2 & b2 & c2 & d2 & hi2 & lo2 & -> & ->).
    unfold Peer.__eq__ in Heq. cbn [Peer._host Peer._port] in Heq.
    apply andb_true_iff in Heq as [Hh Hp].
    apply bool_decide_eq_true in Hh. apply bool_decide_eq_true in Hp.
    apply inet_ntoa_inj in Hh as (-> & -> & -> & ->).
    pose proof (byte_range hi1). pose proof (byte_range lo1).
    pose proof (byte_range hi2). pose proof (byte_range lo2).
    assert (Z.of_N (Byte.to_N hi1) = Z.of_N (Byte.to_N hi2)) as ->%byte_of_Z_inj
      by lia.
    assert (Z.of_N (Byte.to_N lo1) = Z.of_N (Byte.to_N lo2)) as ->%byte_of_Z_inj
      by lia.
    done.
Qed.

Lemma compact_form_decoding_witness :
  (exists p,
     from_compact_form
       [Byte.x0a; Byte.x00; Byte.x00; Byte.x01; Byte.x1a; Byte.xe1]
     = inr p
     /\ (0 <= Peer._port p < 65536)%Z
     /\ Peer.peer_id p = None)
  /\ from_compact_form [Byte.x0a; Byte.x00; Byte.x00] = inl struct_error.
Proof.
  split.
  - apply (proj1 (proj2 (compact_form_decoding
             [Byte.x0a; Byte.x00; Byte.x00; Byte.x01; Byte.x1a; Byte.xe1]
             []))).
    reflexivity.
  - apply (proj1 (compact_form_decoding [Byte.x0a; Byte.x00; Byte.x00] [])).
    simpl. lia.
Defined.

(** ** Completing a transfer *)

Lemma forallb_false_at {A} (f : A -> bool) (l : list A) (i : nat) (x : A) :
  l !! i = Some x -> f x = false -> forallb f l = false.
Proof.
  intros Hx Hf. destruct (forallb f l) eqn:Hall; [| done].
  rewrite forallb_forall in Hall.
  rewrite <- Hf. symmetry. apply Hall. apply list_elem_of_In.
  by eapply list_elem_of_lookup_2.
Qed.

Lemma alter_app_fresh {A} (f : A -> A) (heap new : list A) (i : nat) :
  alter f (length heap + i) (heap ++ new) = heap ++ alter f i new.
Proof.
  induction heap as [| x heap IH]; [done |]. simpl. by rewrite <- IH.
Qed.

(** X19: on a transfer [__init__] has just returned, raising [complete]
    fails with an [AssertionError] while lowering it is accepted; once
    [mark_as_downloaded] has been called on every piece, raising it is
    accepted; and after a [reset_content] of any one piece it fails
    again. *)
Theorem completion_lifecycle heap ih pl hashes name files priv heap' d :
  DownloadInfo.__init__ heap ih pl hashes name files priv = inr (heap', d) ->
  let done_heap := mark_all_downloaded heap' d in
  set_complete heap' d true = inl AssertionError
  /\ (exists d', set_complete heap' d false = inr d'
                 /\ DownloadInfo._complete d' = false)
  /\ (exists d', set_complete done_heap d true = inr d'
                 /\ DownloadInfo._complete d' = true
                 /\ DownloadInfo._pieces d' = DownloadInfo._pieces d)
  /\ (forall i a, DownloadInfo._pieces d !! i = Some a ->
        set_complete (alter PieceInfo.reset_content a done_heap) d true
        = inl AssertionError).
Proof.
  intros Hinit done_heap.
  destruct (init_inv _ _ _ _ _ _ _ _ _ Hinit)
    as (tree & _ & Hne & _ & _ & -> & _ & _ & _ & _ & Hpieces).
  set (new := DownloadInfo.initial_pieces pl hashes
                (DownloadInfo.sum_lengths files)) in *.
  set (f := fun p => outcome_state (PieceInfo.mark_as_downloaded p)).
  assert (Hlen : length new = length hashes)
    by by apply initial_pieces_length.
  assert (Hdone : done_heap = heap ++ map f new).
  { unfold done_heap, mark_all_downloaded. rewrite Hpieces.
    apply foldl_alter_fresh. }
  assert (Hf : forall p, PieceInfo._downloaded (f p) = true
                         /\ PieceInfo.selected (f p) = PieceInfo.selected p).
  { intros p. unfold f, PieceInfo.mark_as_downloaded.
    by destruct (PieceInfo._downloaded p) eqn:Hd. }
  assert (Hpieces' : DownloadInfo._pieces d
                     = seq (length heap) (length (map f new)))
    by by rewrite length_map.
  split; [| split; [| split]].
  - unfold set_complete. rewrite (pieces_of_fresh heap new d Hpieces).
    assert (Hpos : 0 < length new).
    { rewrite Hlen. destruct hashes; [done | simpl; lia]. }
    destruct (lookup_lt_is_Some_2 new 0 Hpos) as [p Hp0].
    destruct (initial_pieces_lookup pl hashes _ 0 p Hne Hp0) as (Hs & Hd & _).
    rewrite (forallb_false_at _ _ 0 p Hp0); [done |].
    by rewrite Hs, Hd.
  - eexists. split; [reflexivity | done].
  - unfold set_complete. rewrite Hdone, (pieces_of_fresh heap _ d Hpieces').
    assert (Hall : forallb
                     (fun info => PieceInfo._downloaded info
                                  || negb (PieceInfo.selected info))
                     (map f new) = true).
    { apply forallb_forall. intros x [p [<- _]]%in_map_iff.
      by rewrite (proj1 (Hf p)). }
    rewrite Hall. simpl. eexists. split; [reflexivity | done].
  - intros i a Ha. rewrite Hpieces in Ha.
    apply lookup_seq in Ha as [-> Hi].
    unfold set_complete. rewrite Hdone, alter_app_fresh.
    assert (Hp : DownloadInfo._pieces d
                 = seq (length heap)
                     (length (alter PieceInfo.reset_content i (map f new))))
      by by rewrite length_alter, length_map.
    rewrite (pieces_of_fresh heap _ d Hp).
    destruct (lookup_lt_is_Some_2 new i Hi) as [p Hp0].
    destruct (initial_pieces_lookup pl hashes _ i p Hne Hp0) as (Hs & _ & _).
    rewrite (forallb_false_at _ _ i (PieceInfo.reset_content (f p))); [done | |].
    + change (map f new) with (fmap (M:=list) f new).
      by rewrite list_lookup_alter_eq, list_lookup_fmap, Hp0.
    + simpl. by rewrite (proj2 (Hf p)), Hs.
Qed.

Lemma completion_lifecycle_witness :
  set_complete sample_heap sample_transfer true = inl AssertionError
  /\ exists d',
       set_complete (mark_all_downloaded sample_heap sample_transfer)
         sample_transfer true = inr d'
       /\ DownloadInfo._complete d' = true.
Proof.
  destruct (completion_lifecycle [] [] 1024 sample_hashes "sample"
              sample_files false sample_heap sample_transfer eq_refl)
    as (H1 & _ & (d' & H3 & H4 & _) & _).
  split; [exact H1 |]. exists d'. by split.
Defined.
